(** * Sirsi hold-pickup-list report: parser, formatter and sort

    A shallow embedding of [sirsi_entry.py] (the field parsers [AuthorLine],
    [TitleStatement], [CopyLine], [PickupLine], the entry parser [SirsiEntry],
    the report [SirsiReport] and the report parser [SirsiParser]).

    Modelling conventions.
    - A Python [str] is a list of characters, [pystr := list ascii]; a character
      is a code point in the range 0..255.  The character classes of the
      interpreter ([str.isspace], the line boundaries of [str.splitlines], the
      decimal digits) are written out for that range.
    - A Python [int] is an [N] where the source only produces naturals.
    - A raised exception is a value of [exn]; a constructor that may raise
      returns a [result].
    - [re.search] is a backtracking matcher over the flat patterns the source
      uses: literal characters and greedy quantifiers over one-character
      classes, optionally wrapped in a capture group. *)

From Stdlib Require Import Ascii String.
From Stdlib Require Import Arith Bool Lia NArith List.
From Stdlib Require Import Sorted Permutation.
From Stdlib Require Decimal DecimalString DecimalN.
Import ListNotations.

Local Open Scope string_scope.
Local Open Scope list_scope.
Local Open Scope nat_scope.

(** ** Python strings *)

Definition pystr := list ascii.

(** String literals of the source are written as Rocq strings. *)
Coercion list_ascii_of_string : string >-> list.

Module Py.

(** Exceptions the modelled code can raise. *)
Inductive exn :=
| ValueError (msg : pystr)
| IndexError.

Definition result (A : Type) := (exn + A)%type.
Definition ret {A} (a : A) : result A := inr a.
Definition raise {A} (e : exn) : result A := inl e.
Definition bind {A B} (m : result A) (f : A -> result B) : result B :=
  match m with inl e => inl e | inr a => f a end.

Definition code (c : ascii) : nat := nat_of_ascii c.

(** [str.isspace] on one character, code points 0..255: TAB LF VT FF CR,
    FS GS RS US, space, NEL and NBSP. *)
Definition isspace (c : ascii) : bool :=
  let n := code c in
  ((9 <=? n) && (n <=? 13)) || ((28 <=? n) && (n <=? 32))
  || (n =? 133) || (n =? 160).

(** Decimal digits ([\d], and what [int] accepts), code points 0..255. *)
Definition isdecimal (c : ascii) : bool :=
  let n := code c in (48 <=? n) && (n <=? 57).

(** Line boundaries of [str.splitlines], code points 0..255:
    LF VT FF CR, FS GS RS, NEL. *)
Definition islinebreak (c : ascii) : bool :=
  let n := code c in
  ((10 <=? n) && (n <=? 13)) || ((28 <=? n) && (n <=? 30)) || (n =? 133).

(** [s.lstrip()], [s.rstrip()], [s.strip()]. *)
Fixpoint lstrip (s : pystr) : pystr :=
  match s with
  | c :: s' => if isspace c then lstrip s' else s
  | [] => []
  end.

Definition rstrip (s : pystr) : pystr := rev (lstrip (rev s)).

Definition strip (s : pystr) : pystr := rstrip (lstrip s).

(** [s.startswith(p)]. *)
Fixpoint startswith (p s : pystr) : bool :=
  match p, s with
  | [], _ => true
  | a :: p', b :: s' => Ascii.eqb a b && startswith p' s'
  | _ :: _, [] => false
  end.

(** [sep in s] for a non-empty [sep]. *)
Fixpoint contains (sep s : pystr) : bool :=
  startswith sep s ||
  match s with
  | [] => false
  | _ :: s' => contains sep s'
  end.

(** [s.split(sep)] for a non-empty [sep]: cut at every occurrence of [sep],
    scanning from the left; occurrences do not overlap.  [skip] counts the
    characters of a separator still to be passed over, [cur] is the part
    being read, reversed. *)
Fixpoint split_go (sep : pystr) (skip : nat) (cur : pystr) (s : pystr)
  : list pystr :=
  match s with
  | [] => [rev cur]
  | c :: s' =>
    match skip with
    | S k => split_go sep k cur s'
    | O =>
      if startswith sep s
      then rev cur :: split_go sep (length sep - 1) [] s'
      else split_go sep 0 (c :: cur) s'
    end
  end.

Definition split (sep s : pystr) : list pystr := split_go sep 0 [] s.

(** [s.split(sep, 1)]: cut at the first occurrence of [sep] only. *)
Fixpoint split1_go (sep : pystr) (cur : pystr) (s : pystr) : list pystr :=
  match s with
  | [] => [rev cur]
  | c :: s' =>
    if startswith sep s
    then [rev cur; skipn (length sep) s]
    else split1_go sep (c :: cur) s'
  end.

Definition split1 (sep s : pystr) : list pystr := split1_go sep [] s.

(** [s.splitlines()]: cut after every line boundary, CR LF counting as one;
    the boundaries are dropped and a trailing boundary opens no last line. *)
Fixpoint splitlines_go (cur : pystr) (s : pystr) : list pystr :=
  match s with
  | [] => match cur with [] => [] | _ => [rev cur] end
  | c :: s' =>
    if islinebreak c then
      match s' with
      | d :: s'' =>
        if (code c =? 13) && (code d =? 10)
        then rev cur :: splitlines_go [] s''
        else rev cur :: splitlines_go [] s'
      | [] => [rev cur]
      end
    else splitlines_go (c :: cur) s'
  end.

Definition splitlines (s : pystr) : list pystr := splitlines_go [] s.

(** [str(n)] for a natural [n]: decimal, no leading zero, ["0"] for 0. *)
Definition str_of_int (n : N) : pystr :=
  list_ascii_of_string (DecimalString.NilZero.string_of_uint (N.to_uint n)).

(** [int(s)] on a string of decimal digits; any other string raises
    [ValueError] (signs, blanks and underscores, which [int] also accepts,
    never reach it from [\d+]; the interpreter's optional limit on the number
    of digits is not modelled). *)
Definition int (s : pystr) : result N :=
  match DecimalString.NilZero.uint_of_string (string_of_list_ascii s) with
  | Some d => ret (N.of_uint d)
  | None => raise (ValueError ("invalid literal for int() with base 10" : string))
  end.

(** The format specification [{x:<w}]: the text left-justified in a field of
    at least [w] characters, filled with spaces. *)
Definition ljust (w : nat) (s : pystr) : pystr :=
  s ++ repeat " "%char (w - length s).

(** [s[:-1]]. *)
Definition drop_last (s : pystr) : pystr := firstn (length s - 1) s.

(** [l[i]] for [i >= 0]. *)
Definition getitem {A} (l : list A) (i : nat) : result A :=
  match nth_error l i with
  | Some x => ret x
  | None => raise IndexError
  end.

(** [a == b] on strings. *)
Definition str_eqb (a b : pystr) : bool :=
  if list_eq_dec ascii_dec a b then true else false.

(** [a < b] on strings: the first differing code point decides, a proper
    prefix is smaller. *)
Fixpoint str_ltb (a b : pystr) : bool :=
  match a, b with
  | _, [] => false
  | [], _ :: _ => true
  | x :: a', y :: b' =>
      if code x <? code y then true
      else if code y <? code x then false
      else str_ltb a' b'
  end.

(** [x in l] for a list of strings. *)
Definition mem (x : pystr) (l : list pystr) : bool := existsb (str_eqb x) l.

(** [l.index(x)]: the first position of [x], [ValueError] when absent. *)
Fixpoint index (l : list pystr) (x : pystr) : result nat :=
  match l with
  | [] => raise (ValueError ("x not in list" : string))
  | y :: l' =>
      if str_eqb y x then ret 0
      else bind (index l' x) (fun i => ret (S i))
  end.

(** Line feed and double quote. *)
Definition LF : ascii := "010"%char.
Definition DQ : ascii := "034"%char.

(** Carriage return. *)
Definition CR : ascii := "013"%char.

(** [sep.join(parts)] *)
Fixpoint join (sep : pystr) (parts : list pystr) : pystr :=
  match parts with
  | [] => []
  | x :: rest =>
      match rest with
      | [] => x
      | _ => x ++ sep ++ join sep rest
      end
  end.

(** [s.replace(old, new)] for a non-empty [old]: every occurrence of [old],
    scanning from the left, occurrences not overlapping.  [skip] counts the
    characters of an occurrence still to be passed over. *)
Fixpoint replace_go (old new : pystr) (skip : nat) (s : pystr) : pystr :=
  match s with
  | [] => []
  | c :: s' =>
    match skip with
    | S k => replace_go old new k s'
    | O =>
      if startswith old s
      then new ++ replace_go old new (length old - 1) s'
      else c :: replace_go old new 0 s'
    end
  end.

Definition replace (old new s : pystr) : pystr := replace_go old new 0 s.

End Py.

Import Py.

(** ** Regular expressions, as [re.search] runs them *)

Module Re.

(** One element of a pattern: a literal character, or a greedy quantifier
    [{lo,hi}] over a one-character class; [grp] tells whether the quantified
    class is wrapped in a capture group. *)
Inductive item :=
| Lit (c : ascii)
| Rep (grp : bool) (cls : ascii -> bool) (lo : nat) (hi : option nat).

Definition pattern := list item.

(** group 0 and the capture groups in order. *)
Definition mres := (pystr * list pystr)%type.

Definition lit (s : string) : pattern := map Lit (list_ascii_of_string s).
Definition star (cls : ascii -> bool) : item := Rep false cls 0 None.
Definition plus (cls : ascii -> bool) : item := Rep false cls 1 None.
Definition opt (cls : ascii -> bool) : item := Rep false cls 0 (Some 1).
Definition gplus (cls : ascii -> bool) : item := Rep true cls 1 None.

(** Length of the longest prefix of [s] inside the class. *)
Fixpoint run (cls : ascii -> bool) (s : pystr) : nat :=
  match s with
  | c :: s' => if cls c then S (run cls s') else 0
  | [] => 0
  end.

Definition bounded (hi : option nat) (n : nat) : nat :=
  match hi with Some h => Nat.min h n | None => n end.

(** A greedy quantifier that has [n] characters available tries to give the
    rest of the pattern, [k], the input after [n] characters, then after
    [n-1], ... down to [lo]; the first success wins. *)
Fixpoint backtrack (k : pystr -> option mres) (grp : bool) (lo : nat)
                   (s : pystr) (n : nat) : option mres :=
  if n <? lo then None else
  match k (skipn n s) with
  | Some (m, gs) =>
      Some (firstn n s ++ m, if grp then firstn n s :: gs else gs)
  | None =>
      match n with
      | O => None
      | S n' => backtrack k grp lo s n'
      end
  end.

(** Match the pattern at the start of [s]. *)
Fixpoint match_here (pat : pattern) (s : pystr) : option mres :=
  match pat with
  | [] => Some ([], [])
  | Lit c :: pat' =>
      match s with
      | a :: s' =>
          if Ascii.eqb a c then
            match match_here pat' s' with
            | Some (m, gs) => Some (a :: m, gs)
            | None => None
            end
          else None
      | [] => None
      end
  | Rep grp cls lo hi :: pat' =>
      backtrack (match_here pat') grp lo s (bounded hi (run cls s))
  end.

(** [re.search]: the match at the leftmost position that has one. *)
Fixpoint search (pat : pattern) (s : pystr) : option mres :=
  match match_here pat s with
  | Some r => Some r
  | None =>
      match s with
      | [] => None
      | _ :: s' => search pat s'
      end
  end.

(** The classes [\s], [\S], [\d], [\n] and "any character but a double
    quote". *)
Definition space : ascii -> bool := isspace.
Definition nonspace (c : ascii) : bool := negb (isspace c).
Definition digit : ascii -> bool := isdecimal.
Definition newline (c : ascii) : bool := code c =? 10.
Definition nonquote (c : ascii) : bool := negb (code c =? 34).

(** The classes and lower bounds of the capture groups of a pattern, and
    what it means for a captured text to respect them. *)
Fixpoint group_specs (pat : pattern) : list ((ascii -> bool) * nat) :=
  match pat with
  | [] => []
  | Lit _ :: pat' => group_specs pat'
  | Rep true cls lo _ :: pat' => (cls, lo) :: group_specs pat'
  | Rep false _ _ _ :: pat' => group_specs pat'
  end.

Definition group_ok (spec : (ascii -> bool) * nat) (g : pystr) : Prop :=
  forallb (fst spec) g = true /\ snd spec <= length g.

End Re.

(** ** [class CopyLine] *)

Module CopyLine.

Record t := mk {
  copies : N;
  item_id : pystr;
  type : pystr;
  location : pystr;
  main_location : pystr;
  sub_location : option pystr
}.

(** [r"copy:(\d+)\s+item ID:(\S+)\s+type:(\S+)\s+location:(\S+)"] *)
Definition COPY_RE : Re.pattern :=
  Re.lit "copy:" ++ [Re.gplus Re.digit; Re.plus Re.space] ++
  Re.lit "item ID:" ++ [Re.gplus Re.nonspace; Re.plus Re.space] ++
  Re.lit "type:" ++ [Re.gplus Re.nonspace; Re.plus Re.space] ++
  Re.lit "location:" ++ [Re.gplus Re.nonspace].

(** [CopyLine.__init__] *)
Definition init (line : pystr) : result t :=
  match Re.search COPY_RE line with
  | Some (_, [g1; g2; g3; g4]) =>
      bind (int g1) (fun n =>
      if contains "-" g4 then
        match split1 "-" g4 with
        | [a; b] => ret (mk n g2 g3 g4 a (Some b))
        | _ => raise (ValueError ("not enough values to unpack" : string))
        end
      else ret (mk n g2 g3 g4 g4 None))
  | _ => raise (ValueError (("Cannot parse copy line: " : string) ++ line))
  end.

(** [CopyLine.__str__] with [COPY_LINE_FMT] *)
Definition str (c : t) : pystr :=
  ("     " : string) ++
  ("copy:" : string) ++ ljust 5 (str_of_int (copies c)) ++
  ("item ID:" : string) ++ ljust 18 (item_id c) ++
  ("type:" : string) ++ ljust 12 (type c) ++
  ("location:" : string) ++ ljust 12 (location c).

End CopyLine.

(** ** [class AuthorLine] *)

Module AuthorLine.

Record t := mk {
  last_name : pystr;
  first_name : pystr;
  birth_year : option pystr
}.

(** [AuthorLine.__init__] *)
Definition init (text : pystr) : result t :=
  let parts := map strip (split "," text) in
  bind (getitem parts 0) (fun last =>
  bind (if 1 <? length parts then getitem parts 1 else ret []) (fun first =>
  bind (if 2 <? length parts
        then bind (getitem parts 2) (fun p => ret (Some (drop_last p)))
        else ret None) (fun year =>
  ret (mk last first year)))).

(** [AuthorLine.__str__] *)
Definition str (a : t) : pystr :=
  match birth_year a with
  | Some y =>
      ("  " : string) ++ last_name a ++ (", " : string) ++ first_name a ++
      (", " : string) ++ y ++ ("-" : string)
  | None =>
      ("  " : string) ++ last_name a ++ (", " : string) ++ first_name a
  end.

End AuthorLine.

(** ** [class TitleStatement] *)

Module TitleStatement.

Record t := mk {
  title : pystr;
  author : pystr
}.

(** [TitleStatement.__init__] *)
Definition init (text : pystr) : result t :=
  if contains "/" text then
    match split1 "/" text with
    | [a; b] => ret (mk (strip a) (strip b))
    | _ => raise (ValueError ("not enough values to unpack" : string))
    end
  else ret (mk (strip text) []).

(** [TitleStatement.__str__] *)
Definition str (x : t) : pystr :=
  ("  " : string) ++ title x ++ (" / " : string) ++ author x.

End TitleStatement.

(** ** [class PickupLine] *)

Module PickupLine.

Record t := mk {
  pickup_library : pystr;
  discharge_date : pystr
}.

(** The pattern of [PickupLine.__init__]: the words "Pickup library:", a
    quoted non-empty text (captured without its quotes), white space, the
    words "Date of discharge:" and a captured token. *)
Definition PICKUP_RE : Re.pattern :=
  Re.lit "Pickup library:" ++ [Re.Lit DQ; Re.gplus Re.nonquote; Re.Lit DQ;
  Re.plus Re.space] ++ Re.lit "Date of discharge:" ++ [Re.gplus Re.nonspace].

(** [PickupLine.__init__] *)
Definition init (line : pystr) : result t :=
  match Re.search PICKUP_RE line with
  | Some (_, [g1; g2]) => ret (mk g1 g2)
  | _ => raise (ValueError (("Cannot parse pickup line: " : string) ++ line))
  end.

Definition left (p : t) : pystr :=
  ("Pickup library:" : string) ++ [DQ] ++ pickup_library p ++ [DQ].
Definition right (p : t) : pystr :=
  ("Date of discharge:" : string) ++ discharge_date p.
Definition TOTAL_WIDTH : nat := 80.
Definition indent : pystr := ("  " : string).
Definition padding (p : t) : nat :=
  Nat.max 1 (TOTAL_WIDTH - length indent - length (left p) - length (right p)).

(** [PickupLine.__str__] *)
Definition str (p : t) : pystr :=
  indent ++ left p ++ repeat " "%char (padding p) ++ right p.

End PickupLine.

(** ** [class SirsiEntry] *)

Module SirsiEntry.

Record t := mk {
  alpha_key : pystr;
  author_line : AuthorLine.t;
  title_statement : TitleStatement.t;
  copy_line : CopyLine.t;
  pickup_line : PickupLine.t
}.

Definition TOO_SHORT : exn :=
  ValueError ("Block does not have enough lines to parse" : string).

(** [SirsiEntry.__init__] *)
Definition init (raw_block : pystr) : result t :=
  let lines := splitlines (strip raw_block) in
  if length lines <? 5 then raise TOO_SHORT else
  bind (getitem lines 0) (fun l0 =>
  bind (getitem lines 1) (fun l1 =>
  bind (AuthorLine.init (strip l1)) (fun a =>
  bind (getitem lines 2) (fun l2 =>
  bind (TitleStatement.init (strip l2)) (fun ts =>
  bind (getitem lines 3) (fun l3 =>
  bind (CopyLine.init l3) (fun c =>
  bind (getitem lines 4) (fun l4 =>
  bind (PickupLine.init l4) (fun p =>
  ret (mk (strip l0) a ts c p)))))))))).

(** [SirsiEntry.__str__] *)
Definition str (e : t) : pystr :=
  alpha_key e ++ [LF] ++ AuthorLine.str (author_line e) ++ [LF] ++
  TitleStatement.str (title_statement e) ++ [LF] ++
  CopyLine.str (copy_line e) ++ [LF] ++ PickupLine.str (pickup_line e).

End SirsiEntry.

(** ** [list.sort(key=...)] *)

Module PySort.

Section Sort.
Context {K A : Type}.
Variable ltb : K -> K -> bool.

(** [list.sort] compares keys with [<] only and is stable.  It is modelled
    by straight insertion over the decorated list: an element goes in
    front of the first element whose key is not smaller than its own. *)
Fixpoint insert (x : K * A) (l : list (K * A)) : list (K * A) :=
  match l with
  | [] => [x]
  | y :: l' => if ltb (fst y) (fst x) then y :: insert x l' else x :: l
  end.

Fixpoint sort (l : list (K * A)) : list (K * A) :=
  match l with
  | [] => []
  | x :: l' => insert x (sort l')
  end.

(** The keys are computed first, one call of [key] per element, in order;
    an exception raised by [key] leaves the sort. *)
Fixpoint decorate (key : A -> result K) (l : list A) : result (list (K * A)) :=
  match l with
  | [] => ret []
  | x :: l' =>
      bind (key x) (fun k =>
      bind (decorate key l') (fun kl => ret ((k, x) :: kl)))
  end.

Definition sort_by (key : A -> result K) (l : list A) : result (list A) :=
  bind (decorate key l) (fun kl => ret (map snd (sort kl))).
End Sort.

End PySort.

(** ** [class SirsiReport] *)

Module SirsiReport.

Record t := mk {
  header : pystr;
  entries : list SirsiEntry.t
}.

(** The key of [sort_by_location_and_author]: a tuple of an [int] and two
    strings. *)
Definition key_t := (nat * pystr * pystr)%type.

(** [a < b] on such tuples: the first component that differs decides. *)
Definition key_ltb (a b : key_t) : bool :=
  let '(i1, l1, f1) := a in
  let '(i2, l2, f2) := b in
  if negb (i1 =? i2) then i1 <? i2
  else if negb (str_eqb l1 l2) then str_ltb l1 l2
  else if negb (str_eqb f1 f2) then str_ltb f1 f2
  else false.

(** The inner function [key] of [sort_by_location_and_author]. *)
Definition key (sort_order : list pystr) (entry : SirsiEntry.t) : result key_t :=
  let loc := CopyLine.main_location (SirsiEntry.copy_line entry) in
  bind (if mem loc sort_order then index sort_order loc
        else ret (length sort_order)) (fun loc_index =>
  let last := AuthorLine.last_name (SirsiEntry.author_line entry) in
  let first := AuthorLine.first_name (SirsiEntry.author_line entry) in
  ret (loc_index, last, first)).

(** [SirsiReport.sort_by_location_and_author] *)
Definition sort_by_location_and_author (sort_order : list pystr) (r : t)
  : result t :=
  bind (PySort.sort_by key_ltb (key sort_order) (entries r)) (fun es =>
  ret (mk (header r) es)).

(** [SirsiReport.__init__]: [entries or []], a missing or empty list of
    entries gives the empty list. *)
Definition init (header : pystr) (entries : option (list SirsiEntry.t)) : t :=
  mk header (match entries with
             | Some (e :: es) => e :: es
             | _ => []
             end).

(** [SirsiReport.add_entry] *)
Definition add_entry (r : t) (entry : SirsiEntry.t) : t :=
  mk (header r) (entries r ++ [entry]).

(** [SirsiReport.__str__] *)
Definition str (r : t) : pystr :=
  header r ++ join [LF; LF] (map SirsiEntry.str (entries r)).

(** The inner function [location_sort_key] of [sort_by_location]. *)
Definition location_sort_key (sort_order : list pystr) (entry : SirsiEntry.t)
  : result nat :=
  let loc := CopyLine.main_location (SirsiEntry.copy_line entry) in
  if mem loc sort_order then index sort_order loc
  else ret (length sort_order).

(** [SirsiReport.sort_by_location] *)
Definition sort_by_location (sort_order : list pystr) (r : t) : result t :=
  bind (PySort.sort_by Nat.ltb (location_sort_key sort_order) (entries r))
       (fun es => ret (mk (header r) es)).

End SirsiReport.

(** ** [class SirsiParser] *)

Module SirsiParser.

(** [HEADER_PATTERN], compiled with [re.VERBOSE]: blanks and comments of the
    pattern text are not part of the pattern. *)
Definition HEADER_PATTERN : Re.pattern :=
  [Re.star Re.space] ++ Re.lit "HOLD PICKUP LIST" ++
    [Re.star Re.space; Re.Lit LF] ++
  [Re.star Re.space; Re.opt Re.newline] ++
  [Re.star Re.space] ++ Re.lit "Produced" ++
    [Re.plus Re.space; Re.Lit DQ; Re.plus Re.nonquote; Re.Lit DQ;
     Re.star Re.space; Re.Lit LF] ++
  [Re.star Re.space; Re.opt Re.newline] ++
  [Re.star Re.space] ++ Re.lit "Library:" ++
    [Re.plus Re.space; Re.Lit DQ; Re.plus Re.nonquote; Re.Lit DQ;
     Re.star Re.space].

(** [match.group(0) if match else ""] *)
Definition find_header (text : pystr) : pystr :=
  match Re.search HEADER_PATTERN text with
  | Some (m, _) => m
  | None => []
  end.

(** [[b for b in text.split("\n\n") if b.strip()]] *)
Definition blocks (text : pystr) : list pystr :=
  filter (fun b => match strip b with [] => false | _ => true end)
         (split [LF; LF] text).

(** One turn of the loop over the blocks: a [ValueError] of the entry
    constructor is caught and the block skipped, any other exception leaves
    the loop. *)
Definition step (acc : result (list SirsiEntry.t)) (block : pystr)
  : result (list SirsiEntry.t) :=
  bind acc (fun entries =>
  match SirsiEntry.init block with
  | inr entry => ret (entries ++ [entry])
  | inl (ValueError _) => ret entries
  | inl e => raise e
  end).

(** [SirsiParser.parse] *)
Definition parse (text : pystr) : result SirsiReport.t :=
  let header := find_header text in
  bind (fold_left step (blocks text) (ret [])) (fun entries =>
  ret (SirsiReport.mk header entries)).

End SirsiParser.

(** ** [main.py] *)

Module Main.

(** The loop of [remove_duplicate_headers] over [lines[i:]]: [seen] is
    [seen_header], [skip] the number of lines that [i += 6] still passes
    over.  A line with the title is dropped with the five lines after it;
    the first time, those six lines, [lines[i:i+6]], are kept instead. *)
Fixpoint dedup (seen : bool) (skip : nat) (lines : list pystr) : list pystr :=
  match lines with
  | [] => []
  | line :: rest =>
    match skip with
    | S k => dedup seen k rest
    | O =>
      if contains "HOLD PICKUP LIST" line then
        if seen then dedup true 5 rest
        else firstn 6 lines ++ dedup true 5 rest
      else line :: dedup seen 0 rest
    end
  end.

(** [remove_duplicate_headers] *)
Definition remove_duplicate_headers (text : pystr) : pystr :=
  let text := replace [CR] [LF] (replace [CR; LF] [LF] text) in
  let lines := split [LF] text in
  join [LF] (dedup false 0 lines).

(** The script, between reading the input file and writing the output
    file; [sort_order] is [args.sort_order], absent when the option is not
    given. *)
Definition process (text : pystr) (sort_order : option (list pystr))
  : result pystr :=
  let sort_order := match sort_order with
                    | Some (x :: l) => x :: l
                    | _ => []
                    end in
  let cleaned := remove_duplicate_headers text in
  bind (SirsiParser.parse cleaned) (fun report =>
  bind (SirsiReport.sort_by_location_and_author sort_order report)
       (fun report => ret (SirsiReport.str report))).

End Main.
(** * Vocabulary of the statements *)

Module Spec.

(** The part of [CopyLine.init] that follows the match. *)
Definition of_groups (g1 g2 g3 g4 : pystr) : result CopyLine.t :=
  bind (int g1) (fun n =>
    if contains "-" g4 then
      match split1 "-" g4 with
      | [a; b] => ret (CopyLine.mk n g2 g3 g4 a (Some b))
      | _ => raise (ValueError ("not enough values to unpack" : string))
      end
    else ret (CopyLine.mk n g2 g3 g4 g4 None)).

(** [sep.join(parts)] *)
Fixpoint join (sep : pystr) (parts : list pystr) : pystr :=
  match parts with
  | [] => []
  | x :: rest =>
      match rest with
      | [] => x
      | _ => x ++ sep ++ join sep rest
      end
  end.

(** [s.split(sep, cuts)]: as [split], but after [cuts] cuts the rest of the
    string is the last part. *)
Fixpoint splitn_go (sep : pystr) (cuts skip : nat) (cur : pystr) (s : pystr)
  : list pystr :=
  match s with
  | [] => [rev cur]
  | c :: s' =>
    match skip with
    | S k => splitn_go sep cuts k cur s'
    | O =>
      match cuts with
      | O => [rev cur ++ s]
      | S cuts' =>
        if startswith sep s
        then rev cur :: splitn_go sep cuts' (length sep - 1) [] s'
        else splitn_go sep cuts 0 (c :: cur) s'
      end
    end
  end.

Definition splitn (sep : pystr) (cuts : nat) (s : pystr) : list pystr :=
  splitn_go sep cuts 0 [] s.

(** The author line as the specification words it: the fragment is split on
    the comma "into at most 3 parts", each trimmed; part 0 is the last name,
    part 1 the first name (else empty), part 2 the birth year without its
    final character. *)
Definition author_at_most_3_parts (text : pystr) : AuthorLine.t :=
  let parts := map strip (splitn "," 2 text) in
  AuthorLine.mk (nth 0 parts []) (nth 1 parts [])
                (option_map drop_last (nth_error parts 2)).

(** What one block adds to the entries of the report. *)
Definition survivors (block : pystr) : list SirsiEntry.t :=
  match SirsiEntry.init block with
  | inr e => [e]
  | inl _ => []
  end.

(** An exception that the loop of [SirsiParser.parse] catches. *)
Definition is_ValueError (e : exn) : Prop := exists msg, e = ValueError msg.

Definition fails {A} (r : result A) : Prop := exists e, r = inl e.

(** Sample inputs are written with [|] for a line feed and ['] for a double
    quote. *)
Definition sample (s : string) : pystr :=
  map (fun c => if Ascii.eqb c "|" then LF
                else if Ascii.eqb c "'" then DQ else c)
      (list_ascii_of_string s).

(** The header pattern occurs in [text] at offset [i], matching [m]. *)
Definition header_at (text : pystr) (i : nat) (m : pystr) : Prop :=
  exists gs,
    Re.match_here SirsiParser.HEADER_PATTERN (skipn i text) = Some (m, gs).

(** A header text of the expected form: the three marked lines, with any
    white space [w0] before the title, [w1] and [w3] between the lines (each
    with a line feed in it), [w2] and [w4] before the quoted texts [p] and
    [l], and [w5] after the last quote. *)
Definition header_text (w0 w1 w2 p w3 w4 l w5 : pystr) : pystr :=
  w0 ++ ("HOLD PICKUP LIST" : string) ++ w1 ++
  ("Produced" : string) ++ w2 ++ [DQ] ++ p ++ [DQ] ++ w3 ++
  ("Library:" : string) ++ w4 ++ [DQ] ++ l ++ [DQ] ++ w5.

Definition blank (w : pystr) : Prop := forallb isspace w = true.

Definition quotable (p : pystr) : Prop :=
  forallb Re.nonquote p = true /\ 1 <= length p.

(** The string does not go on with a character of the class. *)
Definition stops (cls : ascii -> bool) (s : pystr) : Prop :=
  match s with
  | [] => True
  | c :: _ => cls c = false
  end.

(** Number of literal characters of a pattern. *)
Fixpoint literals (pat : Re.pattern) : nat :=
  match pat with
  | [] => 0
  | Re.Lit _ :: pat' => S (literals pat')
  | Re.Rep _ _ _ _ :: pat' => literals pat'
  end.

(** Insertion by key without the decoration, for the proofs. *)
Section SortByKey.
Context {K A : Type}.
Variable ltb : K -> K -> bool.
Variable f : A -> K.

Fixpoint insert_k (x : A) (l : list A) : list A :=
  match l with
  | [] => [x]
  | y :: l' => if ltb (f y) (f x) then y :: insert_k x l' else x :: l
  end.

Fixpoint sort_k (l : list A) : list A :=
  match l with
  | [] => []
  | x :: l' => insert_k x (sort_k l')
  end.

(** An element with its key, as [decorate] pairs them. *)
Definition decorated (x : A) : K * A := (f x, x).

(** [a] may stand before [b]: the key of [b] is not smaller. *)
Definition before (a b : A) : Prop := ltb (f b) (f a) = false.
End SortByKey.

(** The location rank of a main location: its first position in the
    priority list, the length of the list when it is absent. *)
Fixpoint rank_of (order : list pystr) (loc : pystr) : nat :=
  match order with
  | [] => 0
  | x :: order' => if str_eqb x loc then 0 else S (rank_of order' loc)
  end.

Definition main_loc (e : SirsiEntry.t) : pystr :=
  CopyLine.main_location (SirsiEntry.copy_line e).

Definition rank (order : list pystr) (e : SirsiEntry.t) : nat :=
  rank_of order (main_loc e).

(** The pair (last name, first name) of an entry. *)
Definition author (e : SirsiEntry.t) : pystr * pystr :=
  (AuthorLine.last_name (SirsiEntry.author_line e),
   AuthorLine.first_name (SirsiEntry.author_line e)).

(** The sort key of an entry. *)
Definition key_of (order : list pystr) (e : SirsiEntry.t) : SirsiReport.key_t :=
  (rank order e, fst (author e), snd (author e)).

(** Order of strings and lexicographic order of pairs of strings. *)
Definition str_le (a b : pystr) : Prop := a = b \/ str_ltb a b = true.

Definition pair_le (a b : pystr * pystr) : Prop :=
  str_ltb (fst a) (fst b) = true \/ (fst a = fst b /\ str_le (snd a) (snd b)).

(** Equality of keys and of author pairs, as tests. *)
Definition key_eqb (a b : SirsiReport.key_t) : bool :=
  let '(i1, l1, f1) := a in
  let '(i2, l2, f2) := b in
  (i1 =? i2) && str_eqb l1 l2 && str_eqb f1 f2.

Definition author_eqb (a b : pystr * pystr) : bool :=
  str_eqb (fst a) (fst b) && str_eqb (snd a) (snd b).

End Spec.

(** * Vocabulary of the further properties *)

Module Shape.

(** No white space at either end. *)
Definition trimmed (s : pystr) : Prop :=
  Spec.stops isspace s /\ Spec.stops isspace (rev s).

(** No white space at the left end. *)
Definition left_trimmed (s : pystr) : Prop := Spec.stops isspace s.

(** No line boundary inside. *)
Definition one_line (s : pystr) : Prop :=
  forallb (fun c => negb (islinebreak c)) s = true.

(** No white space inside. *)
Definition token (s : pystr) : Prop :=
  forallb Re.nonspace s = true /\ 1 <= length s.

(** An author line as [AuthorLine] builds it: names trimmed and without a
    comma, the birth year without a comma and without white space in front. *)
Definition author_ok (a : AuthorLine.t) : Prop :=
  trimmed (AuthorLine.last_name a) /\ ~ In ","%char (AuthorLine.last_name a) /\
  trimmed (AuthorLine.first_name a) /\ ~ In ","%char (AuthorLine.first_name a) /\
  match AuthorLine.birth_year a with
  | Some y => left_trimmed y /\ ~ In ","%char y
  | None => True
  end.

(** A title statement as [TitleStatement] builds it: title and author
    trimmed, no slash in the title. *)
Definition title_ok (t : TitleStatement.t) : Prop :=
  trimmed (TitleStatement.title t) /\ ~ In "/"%char (TitleStatement.title t) /\
  trimmed (TitleStatement.author t).

(** The author line read off the trimmed parts. *)
Definition author_of_parts (parts : list pystr) : AuthorLine.t :=
  AuthorLine.mk (nth 0 parts []) (nth 1 parts [])
                (option_map drop_last (nth_error parts 2)).

(** A pickup line as [PickupLine] builds it: a non-empty library text
    without a double quote, a non-empty date without white space. *)
Definition pickup_ok (p : PickupLine.t) : Prop :=
  Spec.quotable (PickupLine.pickup_library p) /\
  token (PickupLine.discharge_date p).

(** A copy line as [CopyLine] builds it: three tokens, and the location cut
    at its first hyphen. *)
Definition copy_ok (c : CopyLine.t) : Prop :=
  token (CopyLine.item_id c) /\ token (CopyLine.type c) /\
  token (CopyLine.location c) /\
  ~ In "-"%char (CopyLine.main_location c) /\
  CopyLine.location c =
    CopyLine.main_location c ++
    match CopyLine.sub_location c with
    | Some s => "-"%char :: s
    | None => []
    end.

(** An entry as [SirsiEntry] builds it. *)
Definition entry_ok (e : SirsiEntry.t) : Prop :=
  (SirsiEntry.alpha_key e <> [] /\ trimmed (SirsiEntry.alpha_key e) /\
   one_line (SirsiEntry.alpha_key e)) /\
  (author_ok (SirsiEntry.author_line e) /\
   one_line (AuthorLine.last_name (SirsiEntry.author_line e)) /\
   one_line (AuthorLine.first_name (SirsiEntry.author_line e)) /\
   match AuthorLine.birth_year (SirsiEntry.author_line e) with
   | Some y => one_line y
   | None => True
   end) /\
  (title_ok (SirsiEntry.title_statement e) /\
   one_line (TitleStatement.title (SirsiEntry.title_statement e)) /\
   one_line (TitleStatement.author (SirsiEntry.title_statement e))) /\
  copy_ok (SirsiEntry.copy_line e) /\
  (pickup_ok (SirsiEntry.pickup_line e) /\
   one_line (PickupLine.pickup_library (SirsiEntry.pickup_line e))).

(** The columns of a copy line are not filled: the rendered line keeps a
    space after each of the first three fields. *)
Definition copy_fits (c : CopyLine.t) : Prop :=
  (CopyLine.copies c < 10000)%N /\
  length (CopyLine.item_id c) < 18 /\
  length (CopyLine.type c) < 12.

(** The text with its line endings normalised, as
    [remove_duplicate_headers] first makes it. *)
Definition normalized (text : pystr) : pystr :=
  replace [CR] [LF] (replace [CR; LF] [LF] text).

(** The lines of the normalised text. *)
Definition lines_of (text : pystr) : list pystr :=
  split [LF] (normalized text).

(** A line that holds the title of the header. *)
Definition titled (line : pystr) : bool := contains "HOLD PICKUP LIST" line.

(** [l1] is [l2] with some elements left out, the others in order. *)
Inductive subseq {A : Type} : list A -> list A -> Prop :=
| subseq_nil : subseq [] []
| subseq_skip x l1 l2 : subseq l1 l2 -> subseq l1 (x :: l2)
| subseq_keep x l1 l2 : subseq l1 l2 -> subseq (x :: l1) (x :: l2).

(** A sample entry with the given main location and last name. *)
Definition sample_entry (loc last : string) : SirsiEntry.t :=
  SirsiEntry.mk ("KEY" : string)
    (AuthorLine.mk last ("A." : string) None)
    (TitleStatement.mk ("A Book" : string) [])
    (CopyLine.mk 1 ("31" : string) ("BOOK" : string) loc loc None)
    (PickupLine.mk ("MAIN" : string) ("01/02/2024" : string)).

(** No line feed of the text is followed by a line feed or by the end of
    the text: the text holds no blank-line separator and ends in none. *)
Fixpoint sep_free (s : pystr) : bool :=
  match s with
  | [] => true
  | c :: s' =>
      negb (Ascii.eqb c LF &&
            match s' with
            | [] => true
            | d :: _ => Ascii.eqb d LF
            end) && sep_free s'
  end.

(** An entry that [SirsiEntry] built from some block and whose copy line
    fits its columns. *)
Definition parsed_and_fits (e : SirsiEntry.t) : Prop :=
  (exists block, SirsiEntry.init block = inr e) /\
  copy_fits (SirsiEntry.copy_line e).

End Shape.

(** * Properties *)

(** ** The matcher *)

Section ReFacts.
Import Re.

Lemma run_le_length cls s : run cls s <= length s.
Proof.
  induction s as [|c s IH]; simpl; [lia|].
  destruct (cls c); simpl; lia.
Qed.

Lemma run_firstn cls s j :
  j <= run cls s -> forallb cls (firstn j s) = true.
Proof.
  revert j; induction s as [|c s IH]; intros j Hj; simpl in *.
  - now rewrite firstn_nil.
  - destruct j as [|j]; [reflexivity|].
    destruct (cls c) eqn:Hc; [|lia].
    simpl. rewrite Hc. apply IH. lia.
Qed.

(** The run of a class over [a ++ s] stops at the end of [a] when [a] lies
    in the class and [s] does not go on with it. *)
Lemma run_app cls a s :
  forallb cls a = true ->
  Spec.stops cls s ->
  run cls (a ++ s) = length a.
Proof.
  intros Ha Hs. induction a as [|x a IH]; simpl in *.
  - destruct s as [|c s]; simpl; [reflexivity|now rewrite Hs].
  - apply andb_true_iff in Ha as [Hx Ha]. rewrite Hx. f_equal. now apply IH.
Qed.

Lemma bounded_le hi n : bounded hi n <= n.
Proof. destruct hi; simpl; lia. Qed.

(** What a successful [backtrack] returned. *)
Lemma backtrack_some k grp lo s n r :
  backtrack k grp lo s n = Some r ->
  exists j m gs,
    lo <= j <= n /\ k (skipn j s) = Some (m, gs) /\
    r = (firstn j s ++ m, if grp then firstn j s :: gs else gs).
Proof.
  induction n as [|n IH]; simpl.
  - destruct (0 <? lo) eqn:E; [discriminate|].
    apply Nat.ltb_ge in E.
    destruct (k _) as [[m gs]|] eqn:Hk; [|discriminate].
    intros [= <-]. exists 0, m, gs. simpl. repeat split; try lia. exact Hk.
  - destruct (S n <? lo) eqn:E; [discriminate|].
    apply Nat.ltb_ge in E.
    destruct (k _) as [[m gs]|] eqn:Hk.
    + intros [= <-]. exists (S n), m, gs. repeat split; try lia. exact Hk.
    + intros H. destruct (IH H) as (j & m & gs & Hj & Hkj & ->).
      exists j, m, gs. repeat split; try lia. exact Hkj.
Qed.

(** A greedy quantifier keeps its whole run when the rest of the pattern
    accepts what follows. *)
Lemma backtrack_first k grp lo s n m gs :
  lo <= n -> k (skipn n s) = Some (m, gs) ->
  backtrack k grp lo s n =
    Some (firstn n s ++ m, if grp then firstn n s :: gs else gs).
Proof.
  intros Hlo Hk. apply Nat.ltb_ge in Hlo.
  destruct n; cbn [backtrack]; now rewrite Hlo, Hk.
Qed.

(** It gives back one character when the rest of the pattern refuses. *)
Lemma backtrack_next k grp lo s n :
  lo <= S n -> k (skipn (S n) s) = None ->
  backtrack k grp lo s (S n) = backtrack k grp lo s n.
Proof.
  intros Hlo Hk. cbn [backtrack]. apply Nat.ltb_ge in Hlo.
  now rewrite Hlo, Hk.
Qed.

Lemma match_here_Rep grp cls lo hi pat s :
  match_here (Rep grp cls lo hi :: pat) s =
  backtrack (match_here pat) grp lo s (bounded hi (run cls s)).
Proof. reflexivity. Qed.

Lemma match_here_Lit c pat s :
  match_here (Lit c :: pat) (c :: s) =
  match match_here pat s with
  | Some (m, gs) => Some (c :: m, gs)
  | None => None
  end.
Proof. simpl. now rewrite Ascii.eqb_refl. Qed.

Lemma match_here_lit w pat s :
  match_here (lit w ++ pat) (list_ascii_of_string w ++ s) =
  match match_here pat s with
  | Some (m, gs) => Some (list_ascii_of_string w ++ m, gs)
  | None => None
  end.
Proof.
  unfold lit. induction (list_ascii_of_string w) as [|c l IH]; simpl.
  - now destruct (match_here pat s) as [[m gs]|].
  - rewrite Ascii.eqb_refl, IH. now destruct (match_here pat s) as [[m gs]|].
Qed.

Lemma match_here_rep grp cls lo pat a s m gs :
  forallb cls a = true ->
  Spec.stops cls s ->
  lo <= length a ->
  match_here pat s = Some (m, gs) ->
  match_here (Rep grp cls lo None :: pat) (a ++ s) =
    Some (a ++ m, if grp then a :: gs else gs).
Proof.
  intros Ha Hs Hlo Hm. simpl. rewrite (run_app cls a s Ha Hs).
  rewrite (backtrack_first _ grp lo (a ++ s) (length a) m gs Hlo).
  - now rewrite firstn_app, firstn_all, Nat.sub_diag, firstn_O, app_nil_r.
  - now rewrite skipn_app, skipn_all, Nat.sub_diag, skipn_O.
Qed.

(** A match is a prefix of the input, and every captured group lies in its
    class and has at least its lower bound of characters. *)
Lemma match_here_sound pat : forall s m gs,
  match_here pat s = Some (m, gs) ->
  (exists rest, s = m ++ rest) /\ Forall2 group_ok (group_specs pat) gs.
Proof.
  induction pat as [|i pat IH]; intros s m gs H; simpl in H.
  - injection H as <- <-. split; [now exists s | constructor].
  - destruct i as [c|grp cls lo hi].
    + destruct s as [|a s]; [discriminate|].
      destruct (Ascii.eqb a c); [|discriminate].
      destruct (match_here pat s) as [[m' gs']|] eqn:E; [|discriminate].
      injection H as <- <-. destruct (IH _ _ _ E) as [[rest ->] Hg].
      split; [now exists rest | exact Hg].
    + apply backtrack_some in H as (j & m' & gs' & Hj & Hk & [= -> ->]).
      destruct (IH _ _ _ Hk) as [[rest Hr] Hg].
      pose proof (bounded_le hi (run cls s)) as Hb.
      split.
      * exists rest. rewrite <- app_assoc, <- Hr. now rewrite firstn_skipn.
      * assert (Hok : group_ok (cls, lo) (firstn j s)).
        { split; simpl.
          - apply run_firstn. lia.
          - pose proof (run_le_length cls s). rewrite firstn_length_le; lia. }
        simpl. destruct grp; [constructor; assumption | assumption].
Qed.

(** [search] returns the match at some position of the input. *)
Lemma search_sound pat : forall s r,
  search pat s = Some r -> exists i, match_here pat (skipn i s) = Some r.
Proof.
  induction s as [|c s IH]; intros r H; simpl in H.
  - destruct (match_here pat []) eqn:E; [|discriminate].
    exists 0. simpl. congruence.
  - destruct (match_here pat (c :: s)) eqn:E.
    + exists 0. simpl. congruence.
    + destruct (IH _ H) as [i Hi]. now exists (S i).
Qed.

Lemma search_skip pat c s :
  match_here pat (c :: s) = None -> search pat (c :: s) = search pat s.
Proof. intros H. simpl. now rewrite H. Qed.

Lemma search_here pat s r :
  match_here pat s = Some r -> search pat s = Some r.
Proof. intros H. destruct s; simpl; now rewrite H. Qed.

(** The leftmost position that has a match wins. *)
Lemma search_first pat : forall i s r,
  (forall j, j < i -> match_here pat (skipn j s) = None) ->
  match_here pat (skipn i s) = Some r ->
  search pat s = Some r.
Proof.
  induction i as [|i IH]; intros s r Hnone Hi.
  - now apply search_here.
  - destruct s as [|c s].
    + specialize (Hnone 0 (Nat.lt_0_succ i)). simpl in *. congruence.
    + rewrite search_skip by exact (Hnone 0 (Nat.lt_0_succ i)).
      apply IH; [|exact Hi].
      intros j Hj. apply (Hnone (S j)). lia.
Qed.

Lemma search_none pat : forall s,
  (forall j, match_here pat (skipn j s) = None) -> search pat s = None.
Proof.
  induction s as [|c s IH]; intros H.
  - pose proof (H 0) as H0. simpl in *. now rewrite H0.
  - rewrite search_skip by exact (H 0).
    apply IH. intros j. exact (H (S j)).
Qed.

(** A match is at least as long as the literal text of the pattern. *)
Lemma match_here_literals pat : forall s m gs,
  match_here pat s = Some (m, gs) -> Spec.literals pat <= length m.
Proof.
  induction pat as [|i pat IH]; intros s m gs H; simpl in H.
  - injection H as <- <-. simpl. lia.
  - destruct i as [c|grp cls lo hi].
    + destruct s as [|a s]; [discriminate|].
      destruct (Ascii.eqb a c); [|discriminate].
      destruct (match_here pat s) as [[m' gs']|] eqn:E; [|discriminate].
      injection H as <- <-. simpl. apply IH in E. lia.
    + apply backtrack_some in H as (j & m' & gs' & _ & Hk & [= -> ->]).
      apply IH in Hk. rewrite length_app. simpl. lia.
Qed.

End ReFacts.

Section CopyLineFacts.
Import Re CopyLine Spec.

Lemma nilempty_digits d :
  forallb isdecimal
    (list_ascii_of_string (DecimalString.NilEmpty.string_of_uint d)) = true.
Proof. induction d; simpl; auto. Qed.

Lemma str_of_int_digits n : forallb isdecimal (str_of_int n) = true.
Proof.
  unfold str_of_int, DecimalString.NilZero.string_of_uint.
  destruct (N.to_uint n); try apply (nilempty_digits (_ _)). reflexivity.
Qed.

Lemma to_uint_nonnil n : N.to_uint n <> Decimal.Nil.
Proof.
  intros H. pose proof (DecimalN.Unsigned.to_of (N.to_uint n)) as E.
  rewrite DecimalN.Unsigned.of_to in E. rewrite H in E. discriminate E.
Qed.

Lemma str_of_int_nonempty n : 1 <= length (str_of_int n).
Proof.
  unfold str_of_int, DecimalString.NilZero.string_of_uint.
  pose proof (to_uint_nonnil n).
  destruct (N.to_uint n); simpl; lia.
Qed.

Lemma int_str_of_int n : int (str_of_int n) = inr n.
Proof.
  unfold int, str_of_int. rewrite string_of_list_ascii_of_string.
  rewrite DecimalString.NilZero.usu by apply to_uint_nonnil.
  unfold ret. now rewrite DecimalN.Unsigned.of_to.
Qed.

Lemma str_of_int_small_all :
  forallb (fun k => length (str_of_int (N.of_nat k)) <? 5) (seq 0 (100 * 100)) = true.
Proof. vm_compute. reflexivity. Qed.

Lemma str_of_int_small n : (n < 10000)%N -> length (str_of_int n) < 5.
Proof.
  intros H. pose proof str_of_int_small_all as A.
  rewrite forallb_forall in A. specialize (A (N.to_nat n)).
  rewrite N2Nat.id in A. apply Nat.ltb_lt, A, in_seq. lia.
Qed.

Lemma init_inv line c :
  init line = inr c ->
  exists m g1,
    search COPY_RE line = Some (m, [g1; item_id c; type c; location c]) /\
    int g1 = inr (copies c) /\
    of_groups g1 (item_id c) (type c) (location c) = inr c.
Proof.
  unfold init. destruct (search COPY_RE line) as [[m gs]|] eqn:E; [|discriminate].
  destruct gs as [|g1 [|g2 [|g3 [|g4 [|? ?]]]]]; try discriminate.
  intros H. exists m, g1.
  assert (H' := H). unfold bind in H.
  destruct (int g1) as [e|n] eqn:En; [discriminate|].
  assert (item_id c = g2 /\ type c = g3 /\ location c = g4 /\ copies c = n) as (-> & -> & -> & ->).
  { destruct (contains _ g4).
    - destruct (split1 _ g4) as [|a [|b [|? ?]]]; try discriminate.
      injection H as <-. auto.
    - injection H as <-. auto. }
  repeat split; auto. unfold of_groups. now rewrite En.
Qed.

Lemma forallb_repeat (cls : ascii -> bool) c k :
  cls c = true -> forallb cls (repeat c k) = true.
Proof. intros H. induction k; simpl; [reflexivity|now rewrite H]. Qed.

(** One column of the rendered line: the field, its padding of at least
    one space, and the label of the next column. *)
Lemma match_field cls w g lbl pat s m gs :
  forallb cls g = true -> cls " "%char = false ->
  1 <= length g < w ->
  match list_ascii_of_string lbl with
  | c :: _ => isspace c = false
  | [] => False
  end ->
  match_here pat s = Some (m, gs) ->
  match_here (gplus cls :: plus space :: lit lbl ++ pat)
             (ljust w g ++ list_ascii_of_string lbl ++ s) =
    Some (ljust w g ++ list_ascii_of_string lbl ++ m, g :: gs).
Proof.
  intros Hg Hsp Hl Hlbl Hm. unfold ljust. rewrite <- !app_assoc.
  destruct (w - length g) as [|k] eqn:Ek; [lia|].
  apply (match_here_rep true cls 1);
    [exact Hg | simpl; exact Hsp | lia |].
  apply (match_here_rep false space 1 (lit lbl ++ pat) (repeat " "%char (S k))).
  - now apply forallb_repeat.
  - destruct (list_ascii_of_string lbl); [contradiction|exact Hlbl].
  - simpl; lia.
  - now rewrite match_here_lit, Hm.
Qed.

Lemma match_last_field w g :
  forallb nonspace g = true -> 1 <= length g ->
  match_here [gplus nonspace] (ljust w g) = Some (g, [g]).
Proof.
  intros Hg Hl. unfold ljust.
  rewrite (match_here_rep true nonspace 1 [] g _ [] []).
  - now rewrite app_nil_r.
  - exact Hg.
  - destruct (w - length g); simpl; auto.
  - exact Hl.
  - reflexivity.
Qed.

(** The rendered line is matched at its sixth character, with the four
    fields as groups, as long as the first three columns keep a space of
    padding. *)
Lemma search_rendered d g2 g3 g4 :
  forallb digit d = true -> 1 <= length d < 5 ->
  forallb nonspace g2 = true -> 1 <= length g2 < 18 ->
  forallb nonspace g3 = true -> 1 <= length g3 < 12 ->
  forallb nonspace g4 = true -> 1 <= length g4 ->
  exists m,
    search COPY_RE
      (("     " : string) ++
       ("copy:" : string) ++ ljust 5 d ++
       ("item ID:" : string) ++ ljust 18 g2 ++
       ("type:" : string) ++ ljust 12 g3 ++
       ("location:" : string) ++ ljust 12 g4) = Some (m, [d; g2; g3; g4]).
Proof.
  intros Hd Ld H2 L2 H3 L3 H4 L4.
  pose proof (match_last_field 12 g4 H4 L4) as M4.
  pose proof (match_field nonspace 12 g3 "location:" _ _ _ _
                H3 eq_refl L3 eq_refl M4) as M3.
  pose proof (match_field nonspace 18 g2 "type:" _ _ _ _
                H2 eq_refl L2 eq_refl M3) as M2.
  pose proof (match_field digit 5 d "item ID:" _ _ _ _
                Hd eq_refl Ld eq_refl M2) as M1.
  eexists.
  change (list_ascii_of_string "     ") with (repeat " "%char 5).
  cbn [repeat app].
  do 5 (rewrite search_skip by reflexivity).
  apply search_here. unfold COPY_RE. rewrite match_here_lit.
  cbn [app]. cbn [app] in M1. rewrite M1. reflexivity.
Qed.

(** What [init] keeps of a line it accepts. *)
Lemma init_groups_ok line c :
  init line = inr c ->
  (forallb nonspace (item_id c) = true /\ 1 <= length (item_id c)) /\
  (forallb nonspace (type c) = true /\ 1 <= length (type c)) /\
  (forallb nonspace (location c) = true /\ 1 <= length (location c)).
Proof.
  intros H. destruct (init_inv _ _ H) as (m & g1 & Hs & _ & _).
  apply search_sound in Hs as [i Hi].
  apply match_here_sound in Hi as [_ Hg].
  change (group_specs COPY_RE)
    with [(digit, 1); (nonspace, 1); (nonspace, 1); (nonspace, 1)] in Hg.
  inversion Hg as [|? ? ? ? _ Hg1]; subst.
  inversion Hg1 as [|? ? ? ? O2 Hg2]; subst.
  inversion Hg2 as [|? ? ? ? O3 Hg3]; subst.
  inversion Hg3 as [|? ? ? ? O4 _]; subst.
  repeat split; (apply O2 || apply O3 || apply O4).
Qed.

End CopyLineFacts.

(** ** Splitting on one character *)

Section SplitFacts.
Import Spec.

Lemma startswith_char c x s :
  startswith [c] (x :: s) = Ascii.eqb c x.
Proof. simpl. apply andb_true_r. Qed.

(** [split] on a one-character separator: the parts hold no separator, and
    joined by it they give the string back. *)
Lemma split_go_char c : forall s cur,
  ~ In c cur ->
  let parts := split_go [c] 0 cur s in
  join [c] parts = rev cur ++ s /\
  Forall (fun p => ~ In c p) parts /\
  1 <= length parts.
Proof.
  induction s as [|x s IH]; intros cur Hcur; cbn zeta.
  - simpl. rewrite app_nil_r. repeat split; [|lia].
    constructor; [|constructor]. now rewrite <- in_rev.
  - cbn [split_go]. rewrite startswith_char.
    destruct (Ascii.eqb_spec c x) as [->|Hne].
    + destruct (IH [] (fun f => f)) as (J & F & L). cbn zeta in *.
      cbn [length Nat.sub]. simpl rev in J.
      set (ps := split_go [x] 0 [] s) in *.
      repeat split.
      * cbn [join]. destruct ps as [|p ps']; [simpl in L; lia|].
        rewrite J. reflexivity.
      * constructor; [now rewrite <- in_rev | exact F].
      * simpl. lia.
    + assert (Hc : ~ In c (x :: cur)).
      { intros [E|E]; [now apply Hne|now apply Hcur]. }
      destruct (IH (x :: cur) Hc) as (J & F & L). cbn zeta in *.
      repeat split; [|exact F|exact L].
      rewrite J. simpl. now rewrite <- app_assoc.
Qed.

Lemma split_char c s :
  join [c] (split [c] s) = s /\
  Forall (fun p => ~ In c p) (split [c] s) /\
  1 <= length (split [c] s).
Proof. exact (split_go_char c s [] (fun f => f)). Qed.

End SplitFacts.

(** ** [AuthorLine] and [TitleStatement] never raise [IndexError] *)

Section FieldFacts.

Lemma getitem_nth {A} (l : list A) i d :
  i < length l -> getitem l i = inr (nth i l d).
Proof.
  intros H. unfold getitem. now rewrite (nth_error_nth' l d H).
Qed.

(** [AuthorLine.init] is total, and reads the first three parts. *)
Lemma authorline_init text :
  let parts := split "," text in
  AuthorLine.init text =
    inr (AuthorLine.mk (strip (nth 0 parts [])) (strip (nth 1 parts []))
           (option_map (fun p => drop_last (strip p)) (nth_error parts 2))).
Proof.
  cbn zeta. unfold AuthorLine.init. cbn zeta.
  destruct (split_char ","%char text) as (_ & _ & L).
  change (split [","%char] text) with (split "," text) in L.
  destruct (split "," text) as [|p0 [|p1 [|p2 rest]]]; simpl in L; try lia;
    reflexivity.
Qed.

Lemma split1_go_two sep : forall s cur,
  sep <> [] -> contains sep s = true ->
  exists a b, split1_go sep cur s = [a; b].
Proof.
  induction s as [|c s IH]; intros cur Hsep H.
  - destruct sep; [congruence|discriminate].
  - cbn [split1_go]. cbn [contains] in H.
    destruct (startswith sep (c :: s)); [eauto|].
    apply (IH (c :: cur) Hsep H).
Qed.

(** [TitleStatement.init] is total. *)
Lemma titlestatement_init text :
  exists ts, TitleStatement.init text = inr ts.
Proof.
  unfold TitleStatement.init.
  destruct (contains "/" text) eqn:E; [|eauto].
  destruct (split1_go_two "/" text [] ltac:(discriminate) E) as (a & b & H).
  unfold split1. rewrite H. eauto.
Qed.

Lemma int_error s e : int s = inl e -> Spec.is_ValueError e.
Proof.
  unfold int. destruct (DecimalString.NilZero.uint_of_string _);
    [discriminate|]. intros [= <-]. now eexists.
Qed.

Lemma copyline_error line e :
  CopyLine.init line = inl e -> Spec.is_ValueError e.
Proof.
  unfold CopyLine.init.
  destruct (Re.search _ line) as [[m gs]|];
    [|intros [= <-]; now eexists].
  destruct gs as [|g1 [|g2 [|g3 [|g4 [|? ?]]]]];
    try (intros [= <-]; now eexists).
  destruct (int g1) as [e'|n] eqn:En; cbn [bind].
  - intros [= <-]. now apply (int_error g1).
  - destruct (contains _ g4).
    + destruct (split1 _ g4) as [|a [|b [|? ?]]];
        try (intros [= <-]; now eexists); try discriminate.
    + discriminate.
Qed.

Lemma pickupline_error line e :
  PickupLine.init line = inl e -> Spec.is_ValueError e.
Proof.
  unfold PickupLine.init.
  destruct (Re.search _ line) as [[m gs]|];
    [|intros [= <-]; now eexists].
  destruct gs as [|g1 [|g2 [|? ?]]];
    try (intros [= <-]; now eexists); try discriminate.
Qed.

(** [SirsiEntry.init] on a block: too few lines, or the outcome of the
    copy line and of the pickup line. *)
Lemma entry_init block :
  let lines := splitlines (strip block) in
  (length lines < 5 /\ SirsiEntry.init block = inl SirsiEntry.TOO_SHORT) \/
  (5 <= length lines /\
   exists a ts,
     AuthorLine.init (strip (nth 1 lines [])) = inr a /\
     TitleStatement.init (strip (nth 2 lines [])) = inr ts /\
     SirsiEntry.init block =
       bind (CopyLine.init (nth 3 lines [])) (fun c =>
       bind (PickupLine.init (nth 4 lines [])) (fun p =>
       ret (SirsiEntry.mk (strip (nth 0 lines [])) a ts c p)))).
Proof.
  cbn zeta. unfold SirsiEntry.init. cbn zeta.
  set (lines := splitlines (strip block)).
  destruct (length lines <? 5) eqn:E.
  - left. apply Nat.ltb_lt in E. split; [exact E|reflexivity].
  - right. apply Nat.ltb_ge in E. split; [exact E|].
    rewrite (getitem_nth lines 0 []), (getitem_nth lines 1 []),
      (getitem_nth lines 2 []), (getitem_nth lines 3 []),
      (getitem_nth lines 4 []) by lia.
    cbn [bind]. rewrite authorline_init. cbn [bind].
    destruct (titlestatement_init (strip (nth 2 lines []))) as [ts Hts].
    rewrite Hts. cbn [bind].
    eexists _, ts. repeat split.
Qed.

(** Whatever [SirsiEntry.init] raises is a [ValueError]. *)
Lemma entry_error block e :
  SirsiEntry.init block = inl e -> Spec.is_ValueError e.
Proof.
  destruct (entry_init block) as [[_ H]|[_ (a & ts & _ & _ & H)]];
    rewrite H.
  - intros [= <-]. now eexists.
  - destruct (CopyLine.init _) as [e1|c] eqn:Ec; cbn [bind].
    + intros [= <-]. now apply copyline_error in Ec.
    + destruct (PickupLine.init _) as [e2|p] eqn:Ep; cbn [bind].
      * intros [= <-]. now apply pickupline_error in Ep.
      * discriminate.
Qed.

(** The loop of [parse] keeps what the blocks give, in order. *)
Lemma parse_loop blocks : forall acc,
  fold_left SirsiParser.step blocks (inr acc) =
  inr (acc ++ flat_map Spec.survivors blocks).
Proof.
  induction blocks as [|b bs IH]; intros acc; simpl.
  - now rewrite app_nil_r.
  - unfold Spec.survivors at 1.
    destruct (SirsiEntry.init b) as [e|entry] eqn:E.
    + destruct (entry_error _ _ E) as [msg ->]. simpl. apply IH.
    + rewrite IH. now rewrite <- app_assoc.
Qed.

End FieldFacts.

(** ** Order of strings and of keys *)

Section OrderFacts.
Import Spec.

Lemma code_inj x y : code x = code y -> x = y.
Proof.
  unfold code. intros H.
  rewrite <- (ascii_nat_embedding x), <- (ascii_nat_embedding y).
  now rewrite H.
Qed.

Lemma str_eqb_eq a b : str_eqb a b = true <-> a = b.
Proof.
  unfold str_eqb. destruct (list_eq_dec ascii_dec a b); split;
    congruence.
Qed.

Lemma str_eqb_refl a : str_eqb a a = true.
Proof. now apply str_eqb_eq. Qed.

Lemma str_eqb_sym a b : str_eqb a b = str_eqb b a.
Proof.
  destruct (str_eqb a b) eqn:E1, (str_eqb b a) eqn:E2; try reflexivity.
  - apply str_eqb_eq in E1. subst. now rewrite str_eqb_refl in E2.
  - apply str_eqb_eq in E2. subst. now rewrite str_eqb_refl in E1.
Qed.

Lemma str_ltb_irrefl a : str_ltb a a = false.
Proof.
  induction a as [|x a IH]; simpl; [reflexivity|].
  now rewrite Nat.ltb_irrefl.
Qed.

Lemma str_ltb_asym a : forall b, str_ltb a b = true -> str_ltb b a = false.
Proof.
  induction a as [|x a IH]; intros [|y b] H; simpl in *;
    try reflexivity; try discriminate.
  destruct (code x <? code y) eqn:E1, (code y <? code x) eqn:E2;
    try reflexivity; try discriminate.
  - apply Nat.ltb_lt in E1, E2. lia.
  - now apply IH.
Qed.

Lemma str_ltb_total a : forall b,
  str_ltb a b = false -> str_ltb b a = false -> a = b.
Proof.
  induction a as [|x a IH]; intros [|y b] H1 H2; simpl in *;
    try reflexivity; try discriminate.
  destruct (code x <? code y) eqn:E1; [discriminate|].
  destruct (code y <? code x) eqn:E2; [discriminate|].
  apply Nat.ltb_ge in E1, E2.
  f_equal; [apply code_inj; lia | now apply IH].
Qed.

Lemma key_ltb_irrefl k : SirsiReport.key_ltb k k = false.
Proof.
  destruct k as [[i l] f]. simpl.
  now rewrite Nat.eqb_refl, !str_eqb_refl.
Qed.

Lemma key_ltb_asym a b :
  SirsiReport.key_ltb a b = true -> SirsiReport.key_ltb b a = false.
Proof.
  destruct a as [[i1 l1] f1], b as [[i2 l2] f2]. simpl.
  rewrite (Nat.eqb_sym i2 i1), (str_eqb_sym l2 l1), (str_eqb_sym f2 f1).
  destruct (i1 =? i2) eqn:Ei; simpl.
  - destruct (str_eqb l1 l2); simpl; [|apply str_ltb_asym].
    destruct (str_eqb f1 f2); simpl; [reflexivity|apply str_ltb_asym].
  - intros H. apply Nat.ltb_lt in H. apply Nat.ltb_ge. lia.
Qed.

(** What it means that the key [(i2,l2,f2)] is not below [(i1,l1,f1)]. *)
Lemma key_not_below i1 l1 f1 i2 l2 f2 :
  SirsiReport.key_ltb (i2, l2, f2) (i1, l1, f1) = false ->
  i1 <= i2 /\ (i1 = i2 -> pair_le (l1, f1) (l2, f2)).
Proof.
  simpl. destruct (i2 =? i1) eqn:Ei; simpl.
  - apply Nat.eqb_eq in Ei. subst i2. intros H. split; [lia|]. intros _.
    unfold pair_le, str_le. simpl.
    destruct (str_eqb l2 l1) eqn:El; simpl in H.
    + apply str_eqb_eq in El. subst l2. right. split; [reflexivity|].
      destruct (str_eqb f2 f1) eqn:Ef; simpl in H.
      * apply str_eqb_eq in Ef. now left.
      * right. destruct (str_ltb f1 f2) eqn:E; [reflexivity|].
        rewrite (str_ltb_total _ _ H E), str_eqb_refl in Ef. discriminate.
    + left. destruct (str_ltb l1 l2) eqn:E; [reflexivity|].
      rewrite (str_ltb_total _ _ H E), str_eqb_refl in El. discriminate.
  - intros H. apply Nat.ltb_ge in H. apply Nat.eqb_neq in Ei.
    split; [lia|]. intros E. congruence.
Qed.

Lemma key_eqb_eq a b : key_eqb a b = true <-> a = b.
Proof.
  destruct a as [[i1 l1] f1], b as [[i2 l2] f2]. unfold key_eqb.
  rewrite !andb_true_iff, Nat.eqb_eq, !str_eqb_eq.
  split; [intros [[-> ->] ->]; reflexivity | intros [= -> -> ->]; auto].
Qed.

Lemma mem_In x l : mem x l = true <-> In x l.
Proof.
  unfold mem. rewrite existsb_exists. split.
  - intros (y & Hy & E). apply str_eqb_eq in E. now subst.
  - intros H. exists x. split; [exact H|apply str_eqb_refl].
Qed.

Lemma rank_of_In order loc :
  In loc order <-> rank_of order loc < length order.
Proof.
  induction order as [|x order IH]; simpl; [split; [tauto|lia]|].
  destruct (str_eqb x loc) eqn:E.
  - apply str_eqb_eq in E. split; [lia|auto].
  - split.
    + intros [H|H]; [subst; now rewrite str_eqb_refl in E|].
      apply IH in H. lia.
    + intros H. right. apply IH. lia.
Qed.

Lemma rank_of_le order loc : rank_of order loc <= length order.
Proof.
  induction order as [|x order IH]; simpl; [lia|].
  destruct (str_eqb x loc); lia.
Qed.

Lemma index_rank_of order loc :
  In loc order -> index order loc = inr (rank_of order loc).
Proof.
  induction order as [|x order IH]; simpl; [tauto|].
  destruct (str_eqb x loc) eqn:E; [reflexivity|].
  intros [H|H]; [subst; now rewrite str_eqb_refl in E|].
  now rewrite (IH H).
Qed.

(** The key function of the sort never raises. *)
Lemma key_total order e :
  SirsiReport.key order e = inr (key_of order e).
Proof.
  unfold SirsiReport.key, key_of, rank, main_loc, author. cbn zeta.
  destruct (mem _ order) eqn:E.
  - apply mem_In in E. now rewrite (index_rank_of _ _ E).
  - cbn [bind]. unfold ret. do 3 f_equal.
    pose proof (rank_of_le order
      (CopyLine.main_location (SirsiEntry.copy_line e))) as L.
    destruct (Nat.eq_dec
      (rank_of order (CopyLine.main_location (SirsiEntry.copy_line e)))
      (length order)) as [->|N]; [reflexivity|].
    assert (H : In (CopyLine.main_location (SirsiEntry.copy_line e)) order)
      by (apply rank_of_In; lia).
    apply mem_In in H. congruence.
Qed.

End OrderFacts.

(** ** The sort *)

Section SortFacts.
Import Spec.
Context {K A : Type}.
Variable ltb : K -> K -> bool.
Variable f : A -> K.
Hypothesis ltb_asym : forall a b, ltb a b = true -> ltb b a = false.

Lemma insert_decorated x l :
  PySort.insert ltb (decorated f x) (map (decorated f) l) = map (decorated f) (insert_k ltb f x l).
Proof.
  induction l as [|y l IH]; simpl; [reflexivity|].
  destruct (ltb (f y) (f x)); simpl; [now rewrite IH|reflexivity].
Qed.

Lemma sort_decorated l :
  PySort.sort ltb (map (decorated f) l) = map (decorated f) (sort_k ltb f l).
Proof.
  induction l as [|x l IH]; simpl; [reflexivity|].
  rewrite IH. apply insert_decorated.
Qed.

(** When the key function never raises, [sort_by] is the insertion sort
    on the keys. *)
Lemma sort_by_total (key : A -> result K) l :
  (forall x, key x = inr (f x)) ->
  PySort.sort_by ltb key l = inr (sort_k ltb f l).
Proof.
  intros Hkey. unfold PySort.sort_by.
  assert (D : PySort.decorate key l = inr (map (decorated f) l)).
  { induction l as [|x l IH]; simpl; [reflexivity|].
    now rewrite Hkey, IH. }
  rewrite D. cbn [bind]. rewrite sort_decorated, map_map. simpl.
  now rewrite map_id.
Qed.

Lemma insert_k_perm x l : Permutation (x :: l) (insert_k ltb f x l).
Proof.
  induction l as [|y l IH]; simpl; [reflexivity|].
  destruct (ltb (f y) (f x)); [|reflexivity].
  rewrite perm_swap. now apply perm_skip.
Qed.

Lemma sort_k_perm l : Permutation l (sort_k ltb f l).
Proof.
  induction l as [|x l IH]; simpl; [reflexivity|].
  rewrite <- insert_k_perm. now apply perm_skip.
Qed.

Lemma insert_k_sorted x l :
  Sorted (before ltb f) l -> Sorted (before ltb f) (insert_k ltb f x l).
Proof.
  induction l as [|y l IH]; intros S; simpl.
  - repeat constructor.
  - destruct (ltb (f y) (f x)) eqn:E.
    + apply Sorted_inv in S as [S Hd]. constructor; [now apply IH|].
      destruct l as [|z l]; simpl.
      * constructor. now apply ltb_asym.
      * destruct (ltb (f z) (f x)) eqn:E'; constructor.
        -- now inversion Hd.
        -- now apply ltb_asym.
    + constructor; [exact S|]. constructor. exact E.
Qed.

Lemma sort_k_sorted l : Sorted (before ltb f) (sort_k ltb f l).
Proof.
  induction l as [|x l IH]; simpl; [constructor|].
  now apply insert_k_sorted.
Qed.

(** Stability: the elements picked by a test on the key keep their order,
    as long as no two keys that pass the test are apart in the order. *)
Lemma insert_k_filter (P : K -> bool) x l :
  (forall a b, P a = true -> P b = true -> ltb a b = false) ->
  filter (fun y => P (f y)) (insert_k ltb f x l) =
  filter (fun y => P (f y)) (x :: l).
Proof.
  intros HP. induction l as [|y l IH]; [reflexivity|].
  cbn [insert_k]. destruct (ltb (f y) (f x)) eqn:E; [|reflexivity].
  cbn [filter] in *. rewrite IH.
  destruct (P (f y)) eqn:Py, (P (f x)) eqn:Px; try reflexivity.
  rewrite (HP _ _ Py Px) in E. discriminate.
Qed.

Lemma sort_k_filter (P : K -> bool) l :
  (forall a b, P a = true -> P b = true -> ltb a b = false) ->
  filter (fun y => P (f y)) (sort_k ltb f l) = filter (fun y => P (f y)) l.
Proof.
  intros HP. induction l as [|x l IH]; [reflexivity|].
  cbn [sort_k]. rewrite insert_k_filter by exact HP.
  cbn [filter]. now rewrite IH.
Qed.

End SortFacts.

Section SortedFacts.
Context {A : Type}.

Lemma Sorted_weaken (R R' : A -> A -> Prop) l :
  (forall a b, R a b -> R' a b) -> Sorted R l -> Sorted R' l.
Proof.
  intros H S. induction S as [|a l S IH Hd]; constructor; [exact IH|].
  destruct Hd; constructor; auto.
Qed.

Lemma Sorted_adjacent (R : A -> A -> Prop) l :
  Sorted R l ->
  forall i a b,
    nth_error l i = Some a -> nth_error l (S i) = Some b -> R a b.
Proof.
  intros S. induction S as [|x l S IH Hd]; intros i a b Ha Hb.
  - destruct i; discriminate.
  - destruct i as [|i]; simpl in *.
    + injection Ha as <-. destruct Hd as [|y l' Hxy]; [discriminate|].
      simpl in Hb. now injection Hb as <-.
    + now apply (IH i).
Qed.

Lemma StronglySorted_apart (R : A -> A -> Prop) l :
  StronglySorted R l ->
  forall i j a b,
    i < j -> nth_error l i = Some a -> nth_error l j = Some b -> R a b.
Proof.
  intros S. induction S as [|x l S IH Hall]; intros i j a b Hij Ha Hb.
  - destruct i; discriminate.
  - destruct j as [|j]; [lia|]. simpl in Hb.
    destruct i as [|i]; simpl in Ha.
    + injection Ha as <-. rewrite Forall_forall in Hall.
      apply Hall. now apply nth_error_In in Hb.
    + apply (IH i j); [lia|assumption|assumption].
Qed.

End SortedFacts.

(** ** [sort_by_location_and_author] *)

Section ReportSortFacts.
Import Spec.

Lemma sort_report order r :
  SirsiReport.sort_by_location_and_author order r =
  inr (SirsiReport.mk (SirsiReport.header r)
         (sort_k SirsiReport.key_ltb (key_of order) (SirsiReport.entries r))).
Proof.
  unfold SirsiReport.sort_by_location_and_author.
  now rewrite (sort_by_total _ (key_of order)) by apply key_total.
Qed.

Lemma before_key order e1 e2 :
  before SirsiReport.key_ltb (key_of order) e1 e2 ->
  rank order e1 <= rank order e2 /\
  (rank order e1 = rank order e2 -> pair_le (author e1) (author e2)).
Proof.
  unfold before, key_of. intros H. apply key_not_below in H.
  now destruct (author e1), (author e2).
Qed.

(** Sorted entries are in the order of their ranks, however far apart. *)
Lemma sorted_ranks order l :
  Sorted (before SirsiReport.key_ltb (key_of order)) l ->
  StronglySorted (fun a b => rank order a <= rank order b) l.
Proof.
  intros S. apply Sorted_StronglySorted.
  - intros a b c Hab Hbc. lia.
  - revert S. apply Sorted_weaken. intros a b H.
    now apply before_key in H.
Qed.

Lemma same_key_apart k a b :
  key_eqb a k = true -> key_eqb b k = true ->
  SirsiReport.key_ltb a b = false.
Proof.
  intros Ha Hb. apply key_eqb_eq in Ha, Hb. subst.
  apply key_ltb_irrefl.
Qed.

End ReportSortFacts.

(** ** The header pattern on a header text *)

Section HeaderFacts.
Import Re Spec.

(** A greedy quantifier gives characters back until the rest of the pattern
    accepts. *)
Lemma backtrack_down k grp lo s j0 m gs : forall n,
  lo <= j0 <= n ->
  (forall j, j0 < j <= n -> k (skipn j s) = None) ->
  k (skipn j0 s) = Some (m, gs) ->
  backtrack k grp lo s n =
    Some (firstn j0 s ++ m, if grp then firstn j0 s :: gs else gs).
Proof.
  induction n as [|n IH]; intros Hj Hnone Hk.
  - assert (j0 = 0) as -> by lia. apply backtrack_first; [lia|exact Hk].
  - destruct (Nat.eq_dec j0 (S n)) as [->|Hne].
    + apply backtrack_first; [lia|exact Hk].
    + rewrite backtrack_next; [|lia|apply Hnone; lia].
      apply IH; [lia| |exact Hk]. intros j Hjn. apply Hnone. lia.
Qed.

Lemma match_here_rep_gen grp cls lo hi pat a s m gs :
  forallb cls a = true -> stops cls s ->
  lo <= length a -> bounded hi (length a) = length a ->
  match_here pat s = Some (m, gs) ->
  match_here (Rep grp cls lo hi :: pat) (a ++ s) =
    Some (a ++ m, if grp then a :: gs else gs).
Proof.
  intros Ha Hs Hlo Hhi Hm. simpl. rewrite (run_app cls a s Ha Hs), Hhi.
  rewrite (backtrack_first _ grp lo (a ++ s) (length a) m gs Hlo).
  - now rewrite firstn_app, firstn_all, Nat.sub_diag, firstn_O, app_nil_r.
  - now rewrite skipn_app, skipn_all, Nat.sub_diag, skipn_O.
Qed.

Lemma in_split_last (x : ascii) w :
  In x w -> exists u v, w = u ++ x :: v /\ ~ In x v.
Proof.
  induction w as [|a w IH]; intros H; [contradiction|].
  destruct (in_dec ascii_dec x w) as [Hin|Hout].
  - destruct (IH Hin) as (u & v & -> & Hv). now exists (a :: u), v.
  - destruct H as [->|H]; [|contradiction]. now exists [], w.
Qed.

Lemma stops_space_newline s : stops isspace s -> stops newline s.
Proof.
  destruct s as [|c s]; simpl; [trivial|]. unfold newline, isspace.
  intros H. destruct (code c =? 10) eqn:E; [|reflexivity].
  apply Nat.eqb_eq in E. rewrite E in H. discriminate.
Qed.

(** The line feed the pattern asks for is not found where the input goes on
    with another character. *)
Lemma lit_LF_fails pat v s i :
  ~ In LF v -> stops isspace s ->
  match_here (Lit LF :: pat) (skipn i v ++ s) = None.
Proof.
  intros Hv Hs. destruct (skipn i v) as [|c t] eqn:E; simpl.
  - destruct s as [|c s]; [reflexivity|]. simpl in Hs.
    destruct (Ascii.eqb_spec c LF) as [->|_]; [discriminate|reflexivity].
  - destruct (Ascii.eqb_spec c LF) as [->|_]; [|reflexivity].
    exfalso. apply Hv. rewrite <- (firstn_skipn i v), E.
    apply in_or_app. right. now left.
Qed.

(** The white space between two lines of the header: the first quantifier
    gives back what follows the last line feed. *)
Lemma match_gap pat w s m gs :
  blank w -> In LF w -> stops isspace s ->
  match_here pat s = Some (m, gs) ->
  match_here (star space :: Lit LF :: star space :: opt newline ::
              star space :: pat) (w ++ s) = Some (w ++ m, gs).
Proof.
  intros Hw Hin Hs Hm.
  destruct (in_split_last LF w Hin) as (u & v & Ew & Hv).
  assert (Hv' : forallb isspace v = true).
  { unfold blank in Hw. rewrite Ew, forallb_app in Hw.
    apply andb_true_iff in Hw as [_ Hw]. cbn [forallb] in Hw.
    now apply andb_true_iff in Hw as [_ Hw]. }
  assert (M3 : match_here (star space :: pat) s = Some (m, gs)).
  { exact (match_here_rep_gen false space 0 None pat [] s m gs
             eq_refl Hs (Nat.le_0_l _) eq_refl Hm). }
  assert (M2 : match_here (opt newline :: star space :: pat) s = Some (m, gs)).
  { exact (match_here_rep_gen false newline 0 (Some 1) _ [] s m gs
             eq_refl (stops_space_newline s Hs) (Nat.le_0_l _) eq_refl M3). }
  assert (M1 : match_here (star space :: opt newline :: star space :: pat)
                 (v ++ s) = Some (v ++ m, gs)).
  { exact (match_here_rep_gen false space 0 None _ v s m gs
             Hv' Hs (Nat.le_0_l _) eq_refl M2). }
  unfold star at 1. rewrite match_here_Rep.
  change (bounded None ?n) with n.
  rewrite (run_app space w s Hw Hs).
  rewrite (backtrack_down _ false 0 (w ++ s) (length u) (LF :: v ++ m) gs).
  - rewrite Ew, <- !app_assoc, firstn_app, firstn_all, Nat.sub_diag, firstn_O.
    now rewrite app_nil_r.
  - rewrite Ew, length_app. simpl. lia.
  - intros j Hj. rewrite Ew, length_app in Hj. simpl in Hj.
    rewrite Ew, <- app_assoc, skipn_app.
    rewrite (skipn_all2 u) by lia. cbn [app].
    destruct (j - length u) as [|i] eqn:Ei; [lia|]. cbn [skipn app].
    rewrite skipn_app.
    assert (Z : i - length v = 0) by lia. rewrite Z, skipn_O.
    now apply lit_LF_fails.
  - rewrite Ew, <- app_assoc, skipn_app, skipn_all, Nat.sub_diag, skipn_O.
    cbn [app]. rewrite match_here_Lit. now rewrite M1.
Qed.

(** A quoted text, after white space. *)
Lemma match_quoted pat w q s m gs :
  blank w -> 1 <= length w -> quotable q ->
  match_here pat s = Some (m, gs) ->
  match_here (plus space :: Lit DQ :: plus nonquote :: Lit DQ :: pat)
             (w ++ [DQ] ++ q ++ [DQ] ++ s) =
    Some (w ++ [DQ] ++ q ++ [DQ] ++ m, gs).
Proof.
  intros Hw Lw [Hq Lq] Hm.
  apply (match_here_rep_gen false space 1 None); try assumption;
    [reflexivity|reflexivity|].
  cbn [app]. rewrite match_here_Lit. unfold plus.
  rewrite (match_here_rep_gen false nonquote 1 None (Lit DQ :: pat) q
             (DQ :: s) (DQ :: m) gs Hq eq_refl Lq eq_refl); [reflexivity|].
  now rewrite match_here_Lit, Hm.
Qed.

(** A header text of the expected form is matched whole, up to the next
    character that is not white space. *)
Lemma match_header_text w0 w1 w2 p w3 w4 l w5 rest :
  blank w0 -> blank w1 -> In LF w1 ->
  blank w2 -> 1 <= length w2 -> quotable p ->
  blank w3 -> In LF w3 ->
  blank w4 -> 1 <= length w4 -> quotable l ->
  blank w5 -> stops isspace rest ->
  match_here SirsiParser.HEADER_PATTERN
    (header_text w0 w1 w2 p w3 w4 l w5 ++ rest) =
  Some (header_text w0 w1 w2 p w3 w4 l w5, []).
Proof.
  intros B0 B1 N1 B2 L2 Qp B3 N3 B4 L4 Ql B5 Hrest.
  assert (M5 : match_here [star space] (w5 ++ rest) = Some (w5, [])).
  { rewrite <- (app_nil_r w5) at 2.
    exact (match_here_rep_gen false space 0 None [] w5 rest [] []
             B5 Hrest (Nat.le_0_l _) eq_refl eq_refl). }
  pose proof (match_quoted _ w4 l _ _ _ B4 L4 Ql M5) as M4.
  match type of M4 with
  | match_here ?pat ?s = Some (?m, _) =>
      pose proof (match_gap (lit "Library:" ++ pat) w3
                    (list_ascii_of_string "Library:" ++ s)
                    (list_ascii_of_string "Library:" ++ m) []
                    B3 N3 eq_refl) as M3
  end.
  rewrite match_here_lit, M4 in M3. specialize (M3 eq_refl).
  pose proof (match_quoted _ w2 p _ _ _ B2 L2 Qp M3) as M2.
  match type of M2 with
  | match_here ?pat ?s = Some (?m, _) =>
      pose proof (match_gap (lit "Produced" ++ pat) w1
                    (list_ascii_of_string "Produced" ++ s)
                    (list_ascii_of_string "Produced" ++ m) []
                    B1 N1 eq_refl) as M1
  end.
  rewrite match_here_lit, M2 in M1. specialize (M1 eq_refl).
  unfold SirsiParser.HEADER_PATTERN, header_text.
  rewrite <- !app_assoc. cbn [app] in *.
  apply (match_here_rep_gen false space 0 None);
    [exact B0 | reflexivity | lia | reflexivity |].
  now rewrite match_here_lit, M1.
Qed.

(** So the captured header of a text that starts with such a header text is
    that header text. *)
Lemma find_header_text w0 w1 w2 p w3 w4 l w5 rest :
  blank w0 -> blank w1 -> In LF w1 ->
  blank w2 -> 1 <= length w2 -> quotable p ->
  blank w3 -> In LF w3 ->
  blank w4 -> 1 <= length w4 -> quotable l ->
  blank w5 -> stops isspace rest ->
  SirsiParser.find_header (header_text w0 w1 w2 p w3 w4 l w5 ++ rest) =
  header_text w0 w1 w2 p w3 w4 l w5.
Proof.
  intros. unfold SirsiParser.find_header.
  now rewrite (search_here _ _ _ (match_header_text w0 w1 w2 p w3 w4 l w5 rest
    ltac:(assumption) ltac:(assumption) ltac:(assumption) ltac:(assumption)
    ltac:(assumption) ltac:(assumption) ltac:(assumption) ltac:(assumption)
    ltac:(assumption) ltac:(assumption) ltac:(assumption) ltac:(assumption)
    ltac:(assumption))).
Qed.

Lemma header_text_app w0 w1 w2 p w3 w4 l w5 w :
  header_text w0 w1 w2 p w3 w4 l w5 ++ w =
  header_text w0 w1 w2 p w3 w4 l (w5 ++ w).
Proof. unfold header_text. now rewrite <- !app_assoc. Qed.

(** Two header texts in a row: the captured header is the first one, and
    the white space, if any, in front of the title of the second. *)
Lemma find_header_twice a0 a1 a2 p a3 a4 l a5 b0 tail :
  blank a0 -> blank a1 -> In LF a1 ->
  blank a2 -> 1 <= length a2 -> quotable p ->
  blank a3 -> In LF a3 ->
  blank a4 -> 1 <= length a4 -> quotable l ->
  blank a5 -> blank b0 ->
  SirsiParser.find_header
    (header_text a0 a1 a2 p a3 a4 l a5 ++
     (b0 ++ ("HOLD PICKUP LIST" : string) ++ tail)) =
  header_text a0 a1 a2 p a3 a4 l a5 ++ b0.
Proof.
  intros A0 A1 N1 A2 L2 Qp A3 N3 A4 L4 Ql A5 B0.
  rewrite (app_assoc _ b0), header_text_app.
  apply find_header_text; try assumption; [|reflexivity].
  unfold blank in *. now rewrite forallb_app, A5, B0.
Qed.

End HeaderFacts.

(** ** Trimming *)

Section StripFacts.
Import Spec Shape.

Lemma lstrip_stops s : stops isspace (lstrip s).
Proof.
  induction s as [|c s IH]; simpl; [trivial|].
  destruct (isspace c) eqn:E; [exact IH|exact E].
Qed.

Lemma lstrip_id s : stops isspace s -> lstrip s = s.
Proof. destruct s as [|c s]; simpl; [reflexivity|]. now intros ->. Qed.

Lemma lstrip_blank w s : blank w -> lstrip (w ++ s) = lstrip s.
Proof.
  unfold blank. induction w as [|c w IH]; simpl; [reflexivity|].
  intros H. apply andb_true_iff in H as [-> H]. now apply IH.
Qed.

Lemma lstrip_all_blank w : blank w -> lstrip w = [].
Proof. intros H. rewrite <- (app_nil_r w). now rewrite lstrip_blank. Qed.

(** A character that is not white space stops the trimming. *)
Lemma lstrip_app_char a c r :
  isspace c = false -> lstrip (a ++ c :: r) = lstrip a ++ c :: r.
Proof.
  intros Hc. induction a as [|x a IH]; simpl; [now rewrite Hc|].
  destruct (isspace x); [exact IH|reflexivity].
Qed.

Lemma rstrip_app_char a c r :
  isspace c = false -> rstrip (a ++ c :: r) = a ++ c :: rstrip r.
Proof.
  intros Hc. unfold rstrip. rewrite rev_app_distr. simpl.
  rewrite <- app_assoc. simpl. rewrite lstrip_app_char by exact Hc.
  rewrite rev_app_distr. simpl. rewrite rev_involutive.
  now rewrite <- app_assoc.
Qed.

Lemma forallb_rev_true (p : ascii -> bool) l :
  forallb p l = true -> forallb p (rev l) = true.
Proof.
  rewrite !forallb_forall. intros H x Hx. apply H. now apply in_rev.
Qed.

Lemma rstrip_blank s w : blank w -> rstrip (s ++ w) = rstrip s.
Proof.
  intros H. unfold rstrip. rewrite rev_app_distr, lstrip_blank;
    [reflexivity|].
  now apply forallb_rev_true.
Qed.

Lemma rstrip_id s : stops isspace (rev s) -> rstrip s = s.
Proof.
  intros H. unfold rstrip. rewrite lstrip_id by exact H.
  apply rev_involutive.
Qed.

Lemma rstrip_stops s : stops isspace (rev (rstrip s)).
Proof. unfold rstrip. rewrite rev_involutive. apply lstrip_stops. Qed.

Lemma rstrip_keeps_head s : stops isspace s -> stops isspace (rstrip s).
Proof.
  destruct s as [|c s]; [trivial|]. intros Hc.
  pose proof (rstrip_app_char [] c s Hc) as E. cbn [app] in E.
  rewrite E. exact Hc.
Qed.

Lemma strip_trimmed s : trimmed (strip s).
Proof.
  split; unfold strip.
  - apply rstrip_keeps_head, lstrip_stops.
  - apply rstrip_stops.
Qed.

Lemma strip_id s : trimmed s -> strip s = s.
Proof.
  intros [H1 H2]. unfold strip. rewrite lstrip_id by exact H1.
  now apply rstrip_id.
Qed.

Lemma strip_strip s : strip (strip s) = strip s.
Proof. apply strip_id, strip_trimmed. Qed.

Lemma lstrip_rstrip s : lstrip (rstrip s) = rstrip (lstrip s).
Proof.
  induction s as [|c s IH]; [reflexivity|].
  destruct (isspace c) eqn:Hc.
  - simpl lstrip at 2. rewrite Hc. rewrite <- IH.
    (* the white space at the head is removed from either side *)
    unfold rstrip at 1. simpl rev.
    destruct (lstrip (rev s)) as [|x t] eqn:E.
    + assert (B : blank (rev s)).
      { clear -E. induction (rev s) as [|y l IHl]; [reflexivity|].
        simpl in E. unfold blank. simpl. destruct (isspace y) eqn:Hy;
          [now apply IHl|discriminate]. }
      rewrite lstrip_blank by exact B. simpl. rewrite Hc. simpl.
      unfold rstrip. now rewrite E.
    + assert (Hx : isspace x = false).
      { pose proof (lstrip_stops (rev s)) as S. now rewrite E in S. }
      assert (E' : lstrip (rev s ++ [c]) = lstrip (rev s) ++ [c]).
      { clear -E. induction (rev s) as [|y l IHl]; [discriminate|].
        simpl in *. destruct (isspace y); [now apply IHl|reflexivity]. }
      rewrite E', E. simpl rev. rewrite rev_app_distr. simpl.
      rewrite Hc. unfold rstrip. now rewrite E.
  - rewrite (lstrip_id (c :: s)) by exact Hc.
    apply lstrip_id. apply rstrip_keeps_head. exact Hc.
Qed.

Lemma strip_lstrip s : strip (lstrip s) = strip s.
Proof. unfold strip. now rewrite (lstrip_id (lstrip s)) by apply lstrip_stops. Qed.

Lemma strip_rstrip s : strip (rstrip s) = strip s.
Proof.
  unfold strip. rewrite lstrip_rstrip.
  apply rstrip_id, rstrip_stops.
Qed.

(** Trimming takes the white space around a trimmed string away. *)
Lemma strip_around w1 s w2 :
  blank w1 -> blank w2 -> trimmed s -> strip (w1 ++ s ++ w2) = s.
Proof.
  intros B1 B2 T.
  assert (E : strip (w1 ++ s ++ w2) = strip s).
  { rewrite <- (strip_lstrip (w1 ++ s ++ w2)), lstrip_blank by exact B1.
    rewrite strip_lstrip.
    rewrite <- (strip_rstrip (s ++ w2)), rstrip_blank by exact B2.
    apply strip_rstrip. }
  rewrite E. now apply strip_id.
Qed.

End StripFacts.

(** ** Splitting at a character, once more *)

Section SplitMore.
Import Spec Shape.

Lemma split_go_nosep c : forall a cur,
  ~ In c a -> split_go [c] 0 cur a = [rev cur ++ a].
Proof.
  induction a as [|x a IH]; intros cur H; simpl.
  - now rewrite app_nil_r.
  - rewrite andb_true_r. destruct (Ascii.eqb_spec c x) as [->|_].
    + exfalso. apply H. now left.
    + rewrite IH by (intros F; apply H; now right).
      simpl. now rewrite <- app_assoc.
Qed.

Lemma split_go_cons c r : forall a cur,
  ~ In c a ->
  split_go [c] 0 cur (a ++ c :: r) = (rev cur ++ a) :: split [c] r.
Proof.
  induction a as [|x a IH]; intros cur H.
  - simpl. rewrite Ascii.eqb_refl. simpl. now rewrite app_nil_r.
  - cbn [app split_go]. rewrite startswith_char.
    destruct (Ascii.eqb_spec c x) as [->|_].
    + exfalso. apply H. now left.
    + rewrite IH by (intros F; apply H; now right).
      simpl. now rewrite <- app_assoc.
Qed.

Lemma split_nosep c a : ~ In c a -> split [c] a = [a].
Proof. intros H. unfold split. now rewrite split_go_nosep. Qed.

Lemma split_cons c a r :
  ~ In c a -> split [c] (a ++ c :: r) = a :: split [c] r.
Proof. intros H. unfold split. now rewrite split_go_cons. Qed.

Lemma in_split_first (x : ascii) l :
  In x l -> exists a r, l = a ++ x :: r /\ ~ In x a.
Proof.
  induction l as [|y l IH]; intros H; [contradiction|].
  destruct (ascii_dec x y) as [->|Hne].
  - now exists [], l.
  - destruct H as [E|H]; [congruence|].
    destruct (IH H) as (a & r & -> & Ha).
    exists (y :: a), r. split; [reflexivity|].
    intros [E|F]; [congruence|contradiction].
Qed.

Lemma In_lstrip x s : In x (lstrip s) -> In x s.
Proof.
  induction s as [|c s IH]; simpl; [tauto|].
  destruct (isspace c); [intros H; right; now apply IH|trivial].
Qed.

Lemma In_rstrip x s : In x (rstrip s) -> In x s.
Proof.
  unfold rstrip. intros H. apply in_rev in H. apply In_lstrip in H.
  now apply in_rev.
Qed.

Lemma In_strip x s : In x (strip s) -> In x s.
Proof. unfold strip. intros H. now apply In_lstrip, In_rstrip. Qed.

Lemma In_drop_last x s : In x (drop_last s) -> In x s.
Proof.
  unfold drop_last. intros H. rewrite <- (firstn_skipn (length s - 1) s).
  apply in_or_app. now left.
Qed.

(** White space around a string does not change its trimmed parts. *)
Lemma split_lstrip c t :
  isspace c = false ->
  map strip (split [c] (lstrip t)) = map strip (split [c] t).
Proof.
  intros Hc. destruct (in_dec ascii_dec c t) as [Hin|Hout].
  - destruct (in_split_first c t Hin) as (a & r & -> & Ha).
    rewrite lstrip_app_char by exact Hc.
    rewrite !split_cons; [|exact Ha|intros F; apply Ha; now apply In_lstrip].
    simpl. now rewrite strip_lstrip.
  - rewrite !split_nosep; [|exact Hout|intros F; apply Hout; now apply In_lstrip].
    simpl. now rewrite strip_lstrip.
Qed.

Lemma split_rstrip c : forall n t,
  length t <= n -> isspace c = false ->
  map strip (split [c] (rstrip t)) = map strip (split [c] t).
Proof.
  induction n as [|n IH]; intros t Hn Hc.
  - destruct t; [reflexivity|simpl in Hn; lia].
  - destruct (in_dec ascii_dec c t) as [Hin|Hout].
    + destruct (in_split_first c t Hin) as (a & r & -> & Ha).
      rewrite rstrip_app_char by exact Hc.
      rewrite !split_cons by exact Ha. simpl. f_equal.
      apply IH; [|exact Hc]. rewrite length_app in Hn. simpl in Hn. lia.
    + rewrite !split_nosep;
        [|exact Hout|intros F; apply Hout; now apply In_rstrip].
      simpl. now rewrite strip_rstrip.
Qed.

Lemma split_strip c t :
  isspace c = false ->
  map strip (split [c] (strip t)) = map strip (split [c] t).
Proof.
  intros Hc. change (strip t) with (rstrip (lstrip t)).
  rewrite (split_rstrip c (length (lstrip t)) _ (le_n _) Hc).
  now apply split_lstrip.
Qed.

End SplitMore.

(** ** [AuthorLine]: canonical values and round trip *)

Section AuthorFacts.
Import Spec Shape.

Lemma author_init_parts text :
  AuthorLine.init text =
  inr (author_of_parts (map strip (split "," text))).
Proof.
  rewrite authorline_init. unfold author_of_parts.
  destruct (split "," text) as [|p0 [|p1 [|p2 rest]]]; reflexivity.
Qed.

(** White space around the fragment does not matter. *)
Lemma author_init_strip text :
  AuthorLine.init (strip text) = AuthorLine.init text.
Proof.
  rewrite !author_init_parts.
  change (split (list_ascii_of_string ",")) with (split [","%char]).
  now rewrite split_strip.
Qed.

Lemma drop_last_app s c : drop_last (s ++ [c]) = s.
Proof.
  unfold drop_last. rewrite length_app. simpl.
  replace (length s + 1 - 1) with (length s) by lia.
  now rewrite firstn_app, firstn_all, Nat.sub_diag, firstn_O, app_nil_r.
Qed.

Lemma drop_last_left_trimmed s : left_trimmed s -> left_trimmed (drop_last s).
Proof.
  unfold left_trimmed, drop_last. destruct s as [|c s]; [trivial|].
  simpl. intros H. destruct s; simpl; [trivial|exact H].
Qed.

Lemma nth_strip_ok (c : ascii) parts i :
  Forall (fun p => ~ In c p) parts ->
  trimmed (strip (nth i parts [])) /\ ~ In c (strip (nth i parts [])).
Proof.
  intros F. split; [apply strip_trimmed|].
  intros H. apply In_strip in H.
  destruct (nth_in_or_default i parts []) as [Hin|E].
  - rewrite Forall_forall in F. exact (F _ Hin H).
  - rewrite E in H. contradiction.
Qed.

(** What [AuthorLine] builds is canonical. *)
Lemma author_init_ok text a : AuthorLine.init text = inr a -> author_ok a.
Proof.
  rewrite authorline_init.
  destruct (split_char ","%char text) as (_ & F & _).
  change (split [","%char] text) with (split "," text) in F.
  destruct (nth_strip_ok ","%char (split "," text) 0 F) as [T0 N0].
  destruct (nth_strip_ok ","%char (split "," text) 1 F) as [T1 N1].
  destruct (nth_error (split "," text) 2) as [p|] eqn:E;
    intros [= <-]; unfold author_ok;
    cbn [AuthorLine.last_name AuthorLine.first_name AuthorLine.birth_year
         option_map];
    repeat split; try assumption; try apply T0; try apply T1.
  - apply drop_last_left_trimmed, strip_trimmed.
  - intros H. apply In_drop_last, In_strip in H.
    apply nth_error_In in E. rewrite Forall_forall in F. exact (F _ E H).
Qed.

Lemma trimmed_nil : trimmed [].
Proof. split; exact I. Qed.

Lemma blank_one : blank [" "%char].
Proof. reflexivity. Qed.

Lemma blank_two : blank (list_ascii_of_string "  ").
Proof. reflexivity. Qed.

Lemma strip_after w s : blank w -> trimmed s -> strip (w ++ s) = s.
Proof.
  intros B T. rewrite <- (app_nil_r s) at 1.
  now apply (strip_around w s []).
Qed.

Lemma strip_after_space s : trimmed s -> strip (" "%char :: s) = s.
Proof. exact (strip_after [" "%char] s blank_one). Qed.

(** The trimmed parts of a rendered author line. *)
Lemma author_str_parts a :
  author_ok a ->
  map strip (split "," (AuthorLine.str a)) =
  match AuthorLine.birth_year a with
  | Some y => [AuthorLine.last_name a; AuthorLine.first_name a; y ++ ["-"%char]]
  | None => [AuthorLine.last_name a; AuthorLine.first_name a]
  end.
Proof.
  destruct a as [L F Y]. unfold author_ok, AuthorLine.str.
  cbn [AuthorLine.last_name AuthorLine.first_name AuthorLine.birth_year].
  intros (TL & NL & TF & NF & HY).
  change (split (list_ascii_of_string ",")) with (split [","%char]).
  assert (NL' : ~ In ","%char (list_ascii_of_string "  " ++ L)).
  { intros H. apply in_app_or in H as [H|H]; [|contradiction].
    simpl in H. intuition discriminate. }
  assert (NF' : ~ In ","%char (" "%char :: F)).
  { intros [H|H]; [discriminate|contradiction]. }
  destruct Y as [y|].
  - destruct HY as [Ty Ny].
    assert (Ny' : ~ In ","%char (" "%char :: y ++ ["-"%char])).
    { intros [H|H]; [discriminate|].
      apply in_app_or in H as [H|[H|[]]]; [contradiction|discriminate]. }
    change (list_ascii_of_string "  " ++ L ++ list_ascii_of_string ", " ++
            F ++ list_ascii_of_string ", " ++ y ++ list_ascii_of_string "-")
      with (list_ascii_of_string "  " ++ L ++ ","%char :: " "%char ::
            F ++ ","%char :: " "%char :: y ++ ["-"%char]).
    rewrite app_assoc, split_cons by exact NL'.
    change (" "%char :: F ++ ","%char :: " "%char :: y ++ ["-"%char])
      with ((" "%char :: F) ++ ","%char :: " "%char :: y ++ ["-"%char]).
    rewrite split_cons by exact NF'. rewrite split_nosep by exact Ny'.
    cbn [map]. rewrite (strip_after _ L blank_two TL).
    rewrite (strip_after_space F TF).
    rewrite (strip_after_space (y ++ ["-"%char])); [reflexivity|].
    split.
    + destruct y; [reflexivity|exact Ty].
    + rewrite rev_app_distr. reflexivity.
  - change (list_ascii_of_string "  " ++ L ++ list_ascii_of_string ", " ++ F)
      with (list_ascii_of_string "  " ++ L ++ ","%char :: " "%char :: F).
    rewrite app_assoc, split_cons by exact NL'.
    rewrite split_nosep by exact NF'.
    cbn [map]. rewrite (strip_after _ L blank_two TL).
    now rewrite (strip_after_space F TF).
Qed.

Lemma author_str_init a : author_ok a -> AuthorLine.init (AuthorLine.str a) = inr a.
Proof.
  intros H. rewrite author_init_parts, (author_str_parts a H).
  destruct a as [L F [y|]]; unfold author_of_parts; simpl;
    [now rewrite drop_last_app|reflexivity].
Qed.

End AuthorFacts.

(** ** [TitleStatement]: canonical values and round trip *)

Section TitleFacts.
Import Spec Shape.

Lemma contains_char c s : contains [c] s = true <-> In c s.
Proof.
  induction s as [|x s IH]; simpl; [split; [discriminate|tauto]|].
  rewrite andb_true_r, orb_true_iff, IH.
  destruct (Ascii.eqb_spec c x) as [->|Hne]; split; auto.
  - intros [H|H]; [discriminate|now right].
  - intros [H|H]; [congruence|now right].
Qed.

Lemma split1_go_cons c r : forall a cur,
  ~ In c a -> split1_go [c] cur (a ++ c :: r) = [rev cur ++ a; r].
Proof.
  induction a as [|x a IH]; intros cur H.
  - simpl. rewrite Ascii.eqb_refl. simpl. now rewrite app_nil_r.
  - cbn [app split1_go]. rewrite startswith_char.
    destruct (Ascii.eqb_spec c x) as [->|_].
    + exfalso. apply H. now left.
    + rewrite IH by (intros F; apply H; now right).
      simpl. now rewrite <- app_assoc.
Qed.

Lemma split1_cons c a r :
  ~ In c a -> split1 [c] (a ++ c :: r) = [a; r].
Proof. intros H. unfold split1. now rewrite split1_go_cons. Qed.

(** [TitleStatement] cuts at the first slash. *)
Lemma title_init_slash a r :
  ~ In "/"%char a ->
  TitleStatement.init (a ++ "/"%char :: r) =
  inr (TitleStatement.mk (strip a) (strip r)).
Proof.
  intros H. unfold TitleStatement.init.
  change (list_ascii_of_string "/") with ["/"%char].
  assert (C : contains ["/"%char] (a ++ "/"%char :: r) = true).
  { apply contains_char, in_or_app. right. now left. }
  now rewrite C, split1_cons.
Qed.

Lemma title_init_noslash t :
  ~ In "/"%char t ->
  TitleStatement.init t = inr (TitleStatement.mk (strip t) []).
Proof.
  intros H. unfold TitleStatement.init.
  change (list_ascii_of_string "/") with ["/"%char].
  destruct (contains ["/"%char] t) eqn:C; [|reflexivity].
  apply contains_char in C. contradiction.
Qed.

(** White space around the fragment does not matter. *)
Lemma title_init_strip t :
  TitleStatement.init (strip t) = TitleStatement.init t.
Proof.
  destruct (in_dec ascii_dec "/"%char t) as [Hin|Hout].
  - destruct (in_split_first _ t Hin) as (a & r & -> & Ha).
    unfold strip at 1.
    rewrite lstrip_app_char, rstrip_app_char by reflexivity.
    rewrite !title_init_slash;
      [|exact Ha|intros F; apply Ha; now apply In_lstrip].
    now rewrite strip_lstrip, strip_rstrip.
  - rewrite !title_init_noslash;
      [|exact Hout|intros F; apply Hout; now apply In_strip].
    now rewrite strip_strip.
Qed.

(** What [TitleStatement] builds is canonical. *)
Lemma title_init_ok t ts : TitleStatement.init t = inr ts -> title_ok ts.
Proof.
  destruct (in_dec ascii_dec "/"%char t) as [Hin|Hout].
  - destruct (in_split_first _ t Hin) as (a & r & -> & Ha).
    rewrite title_init_slash by exact Ha. intros [= <-].
    repeat split; try apply strip_trimmed.
    intros F. apply Ha. now apply In_strip.
  - rewrite title_init_noslash by exact Hout. intros [= <-].
    repeat split; try apply strip_trimmed.
    intros F. apply Hout. now apply In_strip.
Qed.

Lemma title_str_init ts :
  title_ok ts -> TitleStatement.init (TitleStatement.str ts) = inr ts.
Proof.
  destruct ts as [T A]. unfold title_ok, TitleStatement.str.
  cbn [TitleStatement.title TitleStatement.author].
  intros (TT & NT & TA).
  change (list_ascii_of_string "  " ++ T ++ list_ascii_of_string " / " ++ A)
    with (list_ascii_of_string "  " ++ T ++ " "%char :: "/"%char :: " "%char :: A).
  replace (list_ascii_of_string "  " ++ T ++ " "%char :: "/"%char :: " "%char :: A)
    with ((list_ascii_of_string "  " ++ T ++ [" "%char]) ++ "/"%char :: " "%char :: A)
    by (now rewrite <- !app_assoc).
  rewrite title_init_slash.
  - rewrite (strip_around _ T [" "%char] blank_two blank_one TT).
    now rewrite (strip_after_space A TA).
  - intros H. apply in_app_or in H as [H|H].
    + simpl in H. intuition discriminate.
    + apply in_app_or in H as [H|[H|[]]]; [contradiction|discriminate].
Qed.

End TitleFacts.

(** ** [CopyLine] and [PickupLine]: canonical values *)

Section CopyPickupFacts.
Import Re Spec Shape.

(** What [CopyLine] builds is canonical. *)
Lemma copy_init_ok line c : CopyLine.init line = inr c -> copy_ok c.
Proof.
  intros H.
  destruct (init_groups_ok _ _ H) as (T2 & T3 & T4).
  destruct (init_inv _ _ H) as (m & g1 & _ & Hint & Hof).
  unfold copy_ok, token. repeat split; try apply T2; try apply T3;
    try apply T4; unfold of_groups in Hof; rewrite Hint in Hof;
    cbn [bind] in Hof;
    change (list_ascii_of_string "-") with ["-"%char] in Hof;
    destruct (contains ["-"%char] (CopyLine.location c)) eqn:C.
  - apply contains_char in C.
    destruct (in_split_first _ _ C) as (a & r & E & Ha).
    rewrite E, split1_cons in Hof by exact Ha.
    injection Hof as Hc. rewrite <- Hc. exact Ha.
  - injection Hof as Hc. rewrite <- Hc. cbn [CopyLine.main_location].
    intros F. apply contains_char in F. congruence.
  - apply contains_char in C.
    destruct (in_split_first _ _ C) as (a & r & E & Ha).
    rewrite E, split1_cons in Hof by exact Ha.
    injection Hof as Hc. rewrite <- Hc at 2 3.
    cbn [CopyLine.main_location CopyLine.sub_location]. exact E.
  - injection Hof as Hc. rewrite <- Hc at 2 3.
    cbn [CopyLine.main_location CopyLine.sub_location].
    now rewrite app_nil_r.
Qed.

Lemma pickup_init_inv line p :
  PickupLine.init line = inr p ->
  exists m,
    search PickupLine.PICKUP_RE line =
    Some (m, [PickupLine.pickup_library p; PickupLine.discharge_date p]).
Proof.
  unfold PickupLine.init.
  destruct (search _ line) as [[m gs]|]; [|discriminate].
  destruct gs as [|g1 [|g2 [|? ?]]]; try discriminate.
  intros [= <-]. now exists m.
Qed.

(** What [PickupLine] builds is canonical. *)
Lemma pickup_init_ok line p : PickupLine.init line = inr p -> pickup_ok p.
Proof.
  intros H. destruct (pickup_init_inv _ _ H) as [m Hs].
  apply search_sound in Hs as [i Hi].
  apply match_here_sound in Hi as [_ Hg].
  change (group_specs PickupLine.PICKUP_RE)
    with [(nonquote, 1); (nonspace, 1)] in Hg.
  inversion Hg as [|? ? ? ? O1 Hg1]; subst.
  inversion Hg1 as [|? ? ? ? O2 _]; subst.
  split; [exact O1|exact O2].
Qed.

(** A rendered pickup line is accepted and gives the same value: the
    padding is never empty. *)
Lemma pickup_str_init p :
  pickup_ok p -> PickupLine.init (PickupLine.str p) = inr p.
Proof.
  destruct p as [lib date]. unfold pickup_ok.
  cbn [PickupLine.pickup_library PickupLine.discharge_date].
  intros [[Ql Ll] [Td Ld]].
  unfold PickupLine.init, PickupLine.str, PickupLine.indent,
    PickupLine.left, PickupLine.right.
  cbn [PickupLine.pickup_library PickupLine.discharge_date].
  set (pad := PickupLine.padding _).
  assert (Hpad : 1 <= pad) by (unfold pad, PickupLine.padding; lia).
  assert (Mend : match_here [gplus nonspace] date = Some (date, [date])).
  { pose proof (match_here_rep_gen true nonspace 1 None [] date [] [] []
                  Td I Ld eq_refl eq_refl) as M.
    now rewrite !app_nil_r in M. }
  assert (M : match_here PickupLine.PICKUP_RE
                (list_ascii_of_string "Pickup library:" ++
                 DQ :: lib ++ DQ :: repeat " "%char pad ++
                 list_ascii_of_string "Date of discharge:" ++ date) =
              Some (list_ascii_of_string "Pickup library:" ++
                    DQ :: lib ++ DQ :: repeat " "%char pad ++
                    list_ascii_of_string "Date of discharge:" ++ date,
                    [lib; date])).
  { unfold PickupLine.PICKUP_RE. rewrite match_here_lit. cbn [app].
    rewrite match_here_Lit. unfold gplus at 1.
    set (tail := list_ascii_of_string "Date of discharge:" ++ date).
    rewrite (match_here_rep_gen true nonquote 1 None _ lib
               (DQ :: repeat " "%char pad ++ tail)
               (DQ :: repeat " "%char pad ++ tail)
               [date] Ql eq_refl Ll eq_refl); [reflexivity|].
    rewrite match_here_Lit. unfold plus.
    rewrite (match_here_rep_gen false space 1 None _ (repeat " "%char pad)
               tail tail [date]);
      [reflexivity| | | | |]; unfold tail.
    - now apply forallb_repeat.
    - reflexivity.
    - rewrite repeat_length. exact Hpad.
    - reflexivity.
    - now rewrite match_here_lit, Mend. }
  change (list_ascii_of_string "  ") with [" "%char; " "%char].
  rewrite <- !app_assoc. cbn [app].
  do 2 (rewrite search_skip by reflexivity).
  now rewrite (search_here _ _ _ M).
Qed.

End CopyPickupFacts.

(** ** [sort_by_location], and sorting what is sorted *)

Section SortMore.
Import Spec.

Lemma location_sort_key_total order e :
  SirsiReport.location_sort_key order e = inr (rank order e).
Proof.
  pose proof (key_total order e) as H.
  unfold SirsiReport.key, SirsiReport.location_sort_key, key_of in *.
  cbn zeta in *.
  destruct (if mem _ order then _ else _) as [x|n]; [discriminate|].
  cbn [bind] in H. unfold ret in H. injection H as ->. reflexivity.
Qed.

Lemma sort_report_loc order r :
  SirsiReport.sort_by_location order r =
  inr (SirsiReport.mk (SirsiReport.header r)
         (sort_k Nat.ltb (rank order) (SirsiReport.entries r))).
Proof.
  unfold SirsiReport.sort_by_location.
  now rewrite (sort_by_total _ (rank order))
    by apply location_sort_key_total.
Qed.

Lemma ltb_asym a b : (a <? b) = true -> (b <? a) = false.
Proof. intros H. apply Nat.ltb_lt in H. apply Nat.ltb_ge. lia. Qed.

(** Sorting a sorted list changes nothing. *)
Lemma sort_k_sorted_id {K A} (ltb : K -> K -> bool) (f : A -> K) l :
  Sorted (before ltb f) l -> sort_k ltb f l = l.
Proof.
  induction 1 as [|x l S IH Hd]; [reflexivity|].
  cbn [sort_k]. rewrite IH.
  destruct Hd as [|y l' Hxy]; [reflexivity|].
  cbn [insert_k]. unfold before in Hxy. now rewrite Hxy.
Qed.

Lemma sorted_by_key_by_rank order l :
  Sorted (before SirsiReport.key_ltb (key_of order)) l ->
  Sorted (before Nat.ltb (rank order)) l.
Proof.
  apply Sorted_weaken. intros a b H. apply before_key in H as [H _].
  unfold before. apply Nat.ltb_ge. exact H.
Qed.

End SortMore.

(** ** [remove_duplicate_headers] *)

Section DedupFacts.
Import Spec Shape.

Lemma join_same sep parts : Py.join sep parts = Spec.join sep parts.
Proof. induction parts as [|x l IH]; [reflexivity|]. simpl. now rewrite IH. Qed.

Lemma remove_duplicate_headers_eq text :
  Main.remove_duplicate_headers text =
  Py.join [LF] (Main.dedup false 0 (lines_of text)).
Proof. reflexivity. Qed.

(** Replacing a single character is a map. *)
Lemma replace_char c d s :
  replace [c] [d] s = map (fun x => if Ascii.eqb c x then d else x) s.
Proof.
  unfold replace. induction s as [|x s IH]; [reflexivity|].
  cbn [replace_go map]. rewrite startswith_char.
  destruct (Ascii.eqb c x); cbn [length Nat.sub app]; now rewrite IH.
Qed.

Lemma normalized_no_CR text : ~ In CR (normalized text).
Proof.
  unfold normalized. rewrite replace_char. intros H.
  apply in_map_iff in H as (x & E & _).
  destruct (Ascii.eqb_spec CR x) as [Hx|N]; [discriminate E|congruence].
Qed.

Lemma startswith_In old : forall s c,
  startswith old s = true -> In c old -> In c s.
Proof.
  induction old as [|o old IH]; intros s c H Hc; [contradiction|].
  destruct s as [|x s]; [discriminate|].
  cbn [startswith] in H. apply andb_true_iff in H as [E H].
  apply Ascii.eqb_eq in E. subst o.
  destruct Hc as [->|Hc]; [now left|right; now apply (IH s)].
Qed.

(** Nothing is replaced in a string that lacks a character of [old]. *)
Lemma replace_absent old new c : forall s,
  In c old -> ~ In c s -> replace old new s = s.
Proof.
  unfold replace.
  induction s as [|x s IH]; intros Hc Hs; [reflexivity|].
  cbn [replace_go].
  destruct (startswith old (x :: s)) eqn:E.
  - exfalso. apply Hs. exact (startswith_In old _ c E Hc).
  - f_equal. apply IH; [exact Hc|]. intros F. apply Hs. now right.
Qed.

Lemma normalized_id text : ~ In CR text -> normalized text = text.
Proof.
  intros H. unfold normalized.
  rewrite (replace_absent [CR; LF] [LF] CR text) by (auto; now left).
  apply (replace_absent [CR] [LF] CR text); [now left|exact H].
Qed.

Lemma dedup_skip seen : forall k ls,
  Main.dedup seen k ls = Main.dedup seen 0 (skipn k ls).
Proof.
  induction k as [|k IH]; intros ls; [reflexivity|].
  destruct ls as [|l ls]; [reflexivity|]. cbn [Main.dedup skipn]. apply IH.
Qed.

Lemma dedup_app_untitled seen pre ls :
  Forall (fun l => titled l = false) pre ->
  Main.dedup seen 0 (pre ++ ls) = pre ++ Main.dedup seen 0 ls.
Proof.
  induction 1 as [|l pre Hl _ IH]; [reflexivity|].
  cbn [app Main.dedup]. unfold titled in Hl. rewrite Hl. now rewrite IH.
Qed.

Lemma dedup_untitled seen ls :
  Forall (fun l => titled l = false) ls -> Main.dedup seen 0 ls = ls.
Proof.
  intros H. rewrite <- (app_nil_r ls) at 1.
  rewrite dedup_app_untitled by exact H. now rewrite app_nil_r.
Qed.

(** The first line with the title is kept with the five lines after it. *)
Lemma dedup_first_title t rest :
  titled t = true ->
  Main.dedup false 0 (t :: rest) =
  firstn 6 (t :: rest) ++ Main.dedup true 0 (skipn 5 rest).
Proof.
  intros H. cbn [Main.dedup]. unfold titled in H. rewrite H.
  now rewrite (dedup_skip true 5).
Qed.

(** A later line with the title is dropped with the five lines after it. *)
Lemma dedup_later_title t rest :
  titled t = true ->
  Main.dedup true 0 (t :: rest) = Main.dedup true 0 (skipn 5 rest).
Proof.
  intros H. cbn [Main.dedup]. unfold titled in H. rewrite H.
  now rewrite (dedup_skip true 5).
Qed.

(** Once a header was seen, no line with the title comes out. *)
Lemma dedup_seen_untitled : forall ls k,
  Forall (fun l => titled l = false) (Main.dedup true k ls).
Proof.
  induction ls as [|l ls IH]; intros k; [constructor|].
  cbn [Main.dedup]. destruct k as [|k]; [|apply IH].
  destruct (contains _ l) eqn:E; [apply IH|].
  constructor; [exact E|apply IH].
Qed.

Lemma subseq_refl {A} (l : list A) : subseq l l.
Proof. induction l; [constructor|now apply subseq_keep]. Qed.

Lemma subseq_nil_l {A} (l : list A) : subseq [] l.
Proof. induction l; constructor; assumption. Qed.

Lemma subseq_app {A} (a b c d : list A) :
  subseq a b -> subseq c d -> subseq (a ++ c) (b ++ d).
Proof.
  induction 1 as [|x l1 l2 H IH|x l1 l2 H IH]; intros Hcd; simpl.
  - exact Hcd.
  - apply subseq_skip. now apply IH.
  - apply subseq_keep. now apply IH.
Qed.

Lemma subseq_firstn {A} n (l : list A) : subseq (firstn n l) l.
Proof.
  revert n. induction l as [|x l IH]; intros [|n]; simpl.
  - constructor.
  - constructor.
  - apply subseq_nil_l.
  - apply subseq_keep. apply IH.
Qed.

Lemma subseq_skipn {A} n (l : list A) : subseq (skipn n l) l.
Proof.
  revert n. induction l as [|x l IH]; intros [|n]; simpl.
  - constructor.
  - constructor.
  - apply subseq_refl.
  - apply subseq_skip. apply IH.
Qed.

Lemma subseq_trans {A} (a b c : list A) :
  subseq a b -> subseq b c -> subseq a c.
Proof.
  intros Hab Hbc. revert a Hab.
  induction Hbc as [|x l1 l2 H IH|x l1 l2 H IH]; intros a Hab.
  - exact Hab.
  - apply subseq_skip. now apply IH.
  - inversion Hab; subst.
    + apply subseq_skip. now apply IH.
    + apply subseq_keep. now apply IH.
Qed.

Lemma subseq_In {A} (a b : list A) x : subseq a b -> In x a -> In x b.
Proof.
  induction 1 as [|y l1 l2 S IH|y l1 l2 S IH]; simpl; intros Hx.
  - exact Hx.
  - right. now apply IH.
  - destruct Hx as [Hx|Hx]; [now left|right; now apply IH].
Qed.

(** The loop only leaves lines out. *)
Lemma dedup_subseq_skip : forall ls seen k,
  subseq (Main.dedup seen k ls) (skipn k ls).
Proof.
  induction ls as [|l ls IH]; intros seen k.
  - destruct k; constructor.
  - cbn [Main.dedup]. destruct k as [|k]; [|apply IH].
    cbn [skipn]. destruct (contains _ l).
    + destruct seen.
      * apply subseq_skip.
        apply (subseq_trans _ (skipn 5 ls)); [apply IH|].
        apply subseq_skipn.
      * rewrite <- (firstn_skipn 6 (l :: ls)) at 2.
        apply subseq_app; [apply subseq_refl|]. apply (IH true 5).
    + apply subseq_keep. apply (IH seen 0).
Qed.

Lemma dedup_subseq seen ls : subseq (Main.dedup seen 0 ls) ls.
Proof. exact (dedup_subseq_skip ls seen 0). Qed.

Lemma first_titled ls :
  Forall (fun l => titled l = false) ls \/
  exists pre t rest,
    ls = pre ++ t :: rest /\
    Forall (fun l => titled l = false) pre /\ titled t = true.
Proof.
  induction ls as [|l ls IH]; [left; constructor|].
  destruct (titled l) eqn:E.
  - right. exists [], l, ls. repeat split; [constructor|exact E].
  - destruct IH as [IH|(pre & t & rest & -> & Hpre & Ht)].
    + left. now constructor.
    + right. exists (l :: pre), t, rest. repeat split;
        [now constructor|exact Ht].
Qed.

(** What the loop gives for a list of lines with a title in it. *)
Lemma dedup_shape pre t rest :
  Forall (fun l => titled l = false) pre -> titled t = true ->
  Main.dedup false 0 (pre ++ t :: rest) =
  pre ++ firstn 6 (t :: rest) ++ Main.dedup true 0 (skipn 5 rest).
Proof.
  intros Hpre Ht. rewrite dedup_app_untitled by exact Hpre.
  now rewrite dedup_first_title.
Qed.

(** A second pass finds nothing to remove. *)
Lemma dedup_idem ls :
  Main.dedup false 0 (Main.dedup false 0 ls) = Main.dedup false 0 ls.
Proof.
  destruct (first_titled ls) as [H|(pre & t & rest & -> & Hpre & Ht)].
  - now rewrite !(dedup_untitled false ls H).
  - rewrite (dedup_shape pre t rest Hpre Ht).
    set (post := Main.dedup true 0 (skipn 5 rest)).
    assert (Hpost : Forall (fun l => titled l = false) post)
      by apply dedup_seen_untitled.
    rewrite (firstn_cons 5 t rest). cbn [app].
    rewrite (dedup_shape pre t _ Hpre Ht).
    f_equal. rewrite (firstn_cons 5 t). cbn [app]. f_equal.
    destruct (le_lt_dec 5 (length rest)) as [L|L].
    + assert (E : length (firstn 5 rest) = 5)
        by (rewrite firstn_length_le; lia).
      rewrite firstn_app, E, Nat.sub_diag, firstn_O, app_nil_r.
      rewrite firstn_firstn. cbn [Nat.min].
      rewrite skipn_app, E, Nat.sub_diag, skipn_O.
      rewrite (skipn_all2 (firstn 5 rest)) by lia. cbn [app].
      now rewrite (dedup_untitled true post Hpost).
    + subst post. rewrite (skipn_all2 rest) by lia.
      cbn [Main.dedup]. rewrite !app_nil_r.
      rewrite !(firstn_all2 rest) by lia.
      rewrite (skipn_all2 rest) by lia. cbn [Main.dedup].
      now rewrite app_nil_r.
Qed.

Lemma dedup_nonempty ls : ls <> [] -> Main.dedup false 0 ls <> [].
Proof.
  destruct ls as [|l ls]; [congruence|]. intros _.
  cbn [Main.dedup]. destruct (contains _ l); discriminate.
Qed.

Lemma In_join x (sep : pystr) : forall parts,
  In x (Py.join sep parts) ->
  In x sep \/ exists p, In p parts /\ In x p.
Proof.
  induction parts as [|p parts IH]; [contradiction|].
  cbn [Py.join]. destruct parts as [|q parts].
  - intros H. right. exists p. split; [now left|exact H].
  - intros H. apply in_app_or in H as [H|H];
      [right; exists p; split; [now left|exact H]|].
    apply in_app_or in H as [H|H]; [now left|].
    destruct (IH H) as [S|(r & Hr & Hx)]; [now left|].
    right. exists r. split; [now right|exact Hx].
Qed.

Lemma In_part_join x p (sep : pystr) : forall parts,
  In p parts -> In x p -> In x (Py.join sep parts).
Proof.
  induction parts as [|q parts IH]; [contradiction|].
  intros Hp Hx. cbn [Py.join]. destruct parts as [|r parts].
  - destruct Hp as [->|[]]. exact Hx.
  - destruct Hp as [->|Hp]; apply in_or_app; [now left|right].
    apply in_or_app. right. now apply IH.
Qed.

(** Splitting what was joined gives the parts back. *)
Lemma split_join c : forall parts,
  Forall (fun p => ~ In c p) parts -> parts <> [] ->
  split [c] (Py.join [c] parts) = parts.
Proof.
  induction parts as [|p parts IH]; intros F N; [congruence|].
  inversion F as [|? ? Hp F']; subst. cbn [Py.join].
  destruct parts as [|q parts].
  - now apply split_nosep.
  - cbn [app]. rewrite split_cons by exact Hp.
    f_equal. apply IH; [exact F'|discriminate].
Qed.

(** The lines of the normalised text: at least one, none with a line feed
    or a carriage return in it, and joined they are the normalised text. *)
Lemma lines_of_spec text :
  Py.join [LF] (lines_of text) = normalized text /\
  Forall (fun l => ~ In LF l) (lines_of text) /\
  Forall (fun l => ~ In CR l) (lines_of text) /\
  lines_of text <> [].
Proof.
  unfold lines_of.
  destruct (split_char LF (normalized text)) as (J & F & L).
  rewrite <- join_same in J. repeat split; try assumption.
  - apply Forall_forall. intros l Hl Hc.
    apply (normalized_no_CR text). rewrite <- J.
    now apply (In_part_join CR l [LF] _ Hl).
  - intros E. rewrite E in L. simpl in L. lia.
Qed.

(** The lines that come out of [remove_duplicate_headers]. *)
Lemma rdh_lines text :
  let out := Main.dedup false 0 (lines_of text) in
  Main.remove_duplicate_headers text = Py.join [LF] out /\
  subseq out (lines_of text) /\
  Forall (fun l => ~ In LF l) out /\
  Forall (fun l => ~ In CR l) out /\
  out <> [] /\
  split [LF] (Main.remove_duplicate_headers text) = out /\
  ~ In CR (Main.remove_duplicate_headers text).
Proof.
  cbn zeta. destruct (lines_of_spec text) as (J & FL & FC & N).
  pose proof (dedup_subseq false (lines_of text)) as S.
  assert (FL' : Forall (fun l => ~ In LF l) (Main.dedup false 0 (lines_of text))).
  { apply Forall_forall. intros l Hl. rewrite Forall_forall in FL.
    apply FL. exact (subseq_In _ _ l S Hl). }
  assert (FC' : Forall (fun l => ~ In CR l) (Main.dedup false 0 (lines_of text))).
  { apply Forall_forall. intros l Hl. rewrite Forall_forall in FC.
    apply FC. exact (subseq_In _ _ l S Hl). }
  pose proof (dedup_nonempty _ N) as N'.
  rewrite remove_duplicate_headers_eq.
  repeat split; try assumption.
  - now apply split_join.
  - intros H. apply In_join in H as [[H|[]]|(p & Hp & Hx)];
      [discriminate|].
    rewrite Forall_forall in FC'. exact (FC' p Hp Hx).
Qed.

End DedupFacts.

(** ** Lines *)

Section LineFacts.
Import Re Spec Shape.

Lemma linebreak_space c : islinebreak c = true -> isspace c = true.
Proof.
  destruct c as [[] [] [] [] [] [] [] []]; vm_compute; auto.
Qed.

Lemma nonspace_nonbreak c : isspace c = false -> islinebreak c = false.
Proof.
  intros H. destruct (islinebreak c) eqn:E; [|reflexivity].
  apply linebreak_space in E. congruence.
Qed.

Lemma one_line_In s :
  one_line s <-> forall x, In x s -> islinebreak x = false.
Proof.
  unfold one_line. rewrite forallb_forall. split; intros H x Hx.
  - apply negb_true_iff. now apply H.
  - apply negb_true_iff. now apply H.
Qed.

Lemma one_line_app a b : one_line a -> one_line b -> one_line (a ++ b).
Proof. unfold one_line. intros A B. now rewrite forallb_app, A, B. Qed.

Lemma one_line_cons c s :
  islinebreak c = false -> one_line s -> one_line (c :: s).
Proof. unfold one_line. intros A B. simpl. now rewrite A, B. Qed.

(** A string made of characters of a one-line string is one line. *)
Lemma one_line_incl a b :
  (forall x, In x a -> In x b) -> one_line b -> one_line a.
Proof.
  rewrite !one_line_In. intros H B x Hx. apply B, H, Hx.
Qed.

Lemma one_line_strip s : one_line s -> one_line (strip s).
Proof. apply one_line_incl. intros x. apply In_strip. Qed.

Lemma one_line_repeat k : one_line (repeat " "%char k).
Proof. induction k; [reflexivity|]. now apply one_line_cons. Qed.

Lemma one_line_forallb (p : ascii -> bool) s :
  (forall c, p c = true -> islinebreak c = false) ->
  forallb p s = true -> one_line s.
Proof.
  intros Hp H. apply one_line_In. intros x Hx. apply Hp.
  rewrite forallb_forall in H. now apply H.
Qed.

Lemma one_line_token s : token s -> one_line s.
Proof.
  intros [H _]. revert H. apply one_line_forallb.
  intros c Hc. apply nonspace_nonbreak. now apply negb_true_iff.
Qed.

Lemma one_line_digits s : forallb isdecimal s = true -> one_line s.
Proof.
  apply one_line_forallb.
  intros c. destruct c as [[] [] [] [] [] [] [] []]; vm_compute; auto.
Qed.

(** [splitlines] up to the first line feed of the text. *)
Lemma splitlines_go_line l rest : forall cur,
  one_line l ->
  splitlines_go cur (l ++ LF :: rest) =
  (rev cur ++ l) :: splitlines_go [] rest.
Proof.
  induction l as [|c l IH]; intros cur H.
  - cbn [app splitlines_go].
    change (islinebreak LF) with true. cbv iota.
    rewrite app_nil_r. destruct rest as [|d rest]; reflexivity.
  - unfold one_line in H. cbn [forallb] in H.
    apply andb_true_iff in H as [Hc H]. apply negb_true_iff in Hc.
    cbn [app splitlines_go]. rewrite Hc.
    rewrite (IH (c :: cur) H). cbn [rev]. now rewrite <- app_assoc.
Qed.

Lemma splitlines_go_last l : forall cur,
  one_line l -> rev cur ++ l <> [] ->
  splitlines_go cur l = [rev cur ++ l].
Proof.
  induction l as [|c l IH]; intros cur H N.
  - rewrite app_nil_r in *. cbn [splitlines_go].
    destruct cur as [|x cur]; [now contradiction N|reflexivity].
  - unfold one_line in H. cbn [forallb] in H.
    apply andb_true_iff in H as [Hc H]. apply negb_true_iff in Hc.
    cbn [splitlines_go]. rewrite Hc.
    rewrite (IH (c :: cur) H); cbn [rev]; rewrite <- app_assoc;
      [reflexivity|].
    intros E. apply app_eq_nil in E as [_ E]. discriminate.
Qed.

(** The lines of a text are one line each. *)
Lemma splitlines_go_one_line : forall n s cur,
  length s <= n -> one_line cur -> Forall one_line (splitlines_go cur s).
Proof.
  assert (R : forall cur, one_line cur -> one_line (rev cur)).
  { intros cur. apply one_line_incl. intros x Hx. now apply in_rev. }
  induction n as [|n IH]; intros s cur L H.
  - destruct s; [|simpl in L; lia]. cbn [splitlines_go].
    destruct cur; [constructor|]. constructor; [now apply R|constructor].
  - destruct s as [|c s].
    + cbn [splitlines_go]. destruct cur; [constructor|].
      constructor; [now apply R|constructor].
    + cbn [splitlines_go]. simpl in L. destruct (islinebreak c) eqn:Hc.
      * destruct s as [|d s]; [constructor; [now apply R|constructor]|].
        simpl in L.
        destruct ((code c =? 13) && (code d =? 10));
          (constructor; [now apply R|]); apply IH;
          simpl; try lia; reflexivity.
      * apply IH; [lia|]. now apply one_line_cons.
Qed.

Lemma splitlines_one_line s : Forall one_line (splitlines s).
Proof. exact (splitlines_go_one_line (length s) s [] (le_n _) eq_refl). Qed.

(** The first line of a text that starts with a character that is not white
    space starts with that character. *)
Lemma splitlines_go_head : forall s cur,
  cur <> [] -> exists l ls, splitlines_go cur s = (rev cur ++ l) :: ls.
Proof.
  induction s as [|c s IH]; intros cur N.
  - cbn [splitlines_go]. destruct cur; [congruence|].
    exists [], []. now rewrite app_nil_r.
  - cbn [splitlines_go]. destruct (islinebreak c).
    + destruct s as [|d s]; [exists [], []; now rewrite app_nil_r|].
      destruct ((code c =? 13) && (code d =? 10));
        eexists [], _; now rewrite app_nil_r.
    + destruct (IH (c :: cur) ltac:(discriminate)) as (l & ls & E).
      exists (c :: l), ls. rewrite E. cbn [rev]. now rewrite <- app_assoc.
Qed.

End LineFacts.

(** ** Characters of the fields *)

Section CharFacts.
Import Re Spec Shape.

Lemma In_firstn {A} (x : A) n l : In x (firstn n l) -> In x l.
Proof.
  intros H. rewrite <- (firstn_skipn n l). apply in_or_app. now left.
Qed.

Lemma In_skipn {A} (x : A) n l : In x (skipn n l) -> In x l.
Proof.
  intros H. rewrite <- (firstn_skipn n l). apply in_or_app. now right.
Qed.

(** A captured group is made of characters of the input. *)
Lemma match_here_groups_In pat : forall s m gs,
  match_here pat s = Some (m, gs) ->
  forall g x, In g gs -> In x g -> In x s.
Proof.
  induction pat as [|i pat IH]; intros s m gs H g x Hg Hx; simpl in H.
  - injection H as <- <-. contradiction.
  - destruct i as [c|grp cls lo hi].
    + destruct s as [|a s]; [discriminate|].
      destruct (Ascii.eqb a c); [|discriminate].
      destruct (match_here pat s) as [[m' gs']|] eqn:E; [|discriminate].
      injection H as <- <-. right. exact (IH _ _ _ E g x Hg Hx).
    + apply backtrack_some in H as (j & m' & gs' & _ & Hk & [= -> ->]).
      assert (K : In g gs' -> In x s).
      { intros Hg'. apply (In_skipn x j). exact (IH _ _ _ Hk g x Hg' Hx). }
      destruct grp; [|now apply K].
      destruct Hg as [<-|Hg]; [now apply (In_firstn x j)|now apply K].
Qed.

Lemma search_groups_In pat s m gs :
  search pat s = Some (m, gs) ->
  forall g x, In g gs -> In x g -> In x s.
Proof.
  intros H g x Hg Hx. apply search_sound in H as [i Hi].
  apply (In_skipn x i). exact (match_here_groups_In _ _ _ _ Hi g x Hg Hx).
Qed.

Lemma In_split_part c text p x :
  In p (split [c] text) -> In x p -> In x text.
Proof.
  intros Hp Hx. destruct (split_char c text) as (J & _).
  rewrite <- J, <- join_same. now apply (In_part_join x p).
Qed.

(** The fields of an author line are made of characters of the fragment. *)
Lemma author_chars text a x :
  AuthorLine.init text = inr a ->
  (In x (AuthorLine.last_name a) \/ In x (AuthorLine.first_name a) \/
   exists y, AuthorLine.birth_year a = Some y /\ In x y) ->
  In x text.
Proof.
  rewrite authorline_init.
  assert (K : forall i, In x (strip (nth i (split "," text) [])) -> In x text).
  { intros i H. apply In_strip in H.
    destruct (nth_in_or_default i (split "," text) []) as [Hin|E].
    - exact (In_split_part ","%char text _ x Hin H).
    - rewrite E in H. contradiction. }
  destruct (nth_error (split "," text) 2) as [p|] eqn:Ep;
    intros [= <-];
    cbn [AuthorLine.last_name AuthorLine.first_name AuthorLine.birth_year
         option_map];
    (intros [H|[H|(y & E & H)]]; [now apply (K 0)|now apply (K 1)|]).
  - injection E as <-. apply In_drop_last, In_strip in H.
    apply nth_error_In in Ep. exact (In_split_part ","%char text _ x Ep H).
  - discriminate E.
Qed.

(** The fields of a title statement are made of characters of the
    fragment. *)
Lemma title_chars text ts x :
  TitleStatement.init text = inr ts ->
  In x (TitleStatement.title ts) \/ In x (TitleStatement.author ts) ->
  In x text.
Proof.
  destruct (in_dec ascii_dec "/"%char text) as [Hin|Hout].
  - destruct (in_split_first _ text Hin) as (a & r & -> & Ha).
    rewrite title_init_slash by exact Ha. intros [= <-].
    cbn [TitleStatement.title TitleStatement.author].
    intros [H|H]; apply In_strip in H; apply in_or_app;
      [now left|right; now right].
  - rewrite title_init_noslash by exact Hout. intros [= <-].
    cbn [TitleStatement.title TitleStatement.author].
    intros [H|[]]. now apply In_strip in H.
Qed.

Lemma pickup_chars line p x :
  PickupLine.init line = inr p ->
  In x (PickupLine.pickup_library p) -> In x line.
Proof.
  intros H Hx. destruct (pickup_init_inv _ _ H) as [m Hs].
  apply (search_groups_In _ _ _ _ Hs (PickupLine.pickup_library p) x);
    [now left|exact Hx].
Qed.

End CharFacts.

(** ** [SirsiEntry]: canonical values and round trip *)

Section EntryFacts.
Import Re Spec Shape.

Lemma one_line_literal (s : string) :
  forallb (fun c => negb (islinebreak c)) (list_ascii_of_string s) = true ->
  one_line (list_ascii_of_string s).
Proof. trivial. Qed.

Lemma one_line_author_str a :
  one_line (AuthorLine.last_name a) -> one_line (AuthorLine.first_name a) ->
  match AuthorLine.birth_year a with Some y => one_line y | None => True end ->
  one_line (AuthorLine.str a).
Proof.
  destruct a as [L F [y|]]; unfold AuthorLine.str;
    cbn [AuthorLine.last_name AuthorLine.first_name AuthorLine.birth_year];
    intros HL HF Hy;
    repeat match goal with
    | |- one_line (_ ++ _) => apply one_line_app
    | |- one_line (list_ascii_of_string _) => reflexivity
    | |- one_line _ => assumption
    end.
Qed.

Lemma one_line_title_str ts :
  one_line (TitleStatement.title ts) -> one_line (TitleStatement.author ts) ->
  one_line (TitleStatement.str ts).
Proof.
  destruct ts as [T A]; unfold TitleStatement.str;
    cbn [TitleStatement.title TitleStatement.author]; intros HT HA;
    repeat match goal with
    | |- one_line (_ ++ _) => apply one_line_app
    | |- one_line (list_ascii_of_string _) => reflexivity
    | |- one_line _ => assumption
    end.
Qed.

Lemma one_line_ljust w s : one_line s -> one_line (ljust w s).
Proof.
  intros H. unfold ljust. apply one_line_app; [exact H|].
  apply one_line_repeat.
Qed.

Lemma one_line_copy_str c : copy_ok c -> one_line (CopyLine.str c).
Proof.
  intros (T1 & T2 & T3 & _). unfold CopyLine.str.
  repeat match goal with
  | |- one_line (_ ++ _) => apply one_line_app
  | |- one_line (ljust _ _) => apply one_line_ljust
  | |- one_line (list_ascii_of_string _) => reflexivity
  | |- one_line (str_of_int _) => apply one_line_digits, str_of_int_digits
  | |- one_line _ => now apply one_line_token
  end.
Qed.

Lemma one_line_pickup_str p :
  pickup_ok p -> one_line (PickupLine.pickup_library p) ->
  one_line (PickupLine.str p).
Proof.
  intros [_ Td] Hl. unfold PickupLine.str, PickupLine.left, PickupLine.right,
    PickupLine.indent.
  repeat match goal with
  | |- one_line (_ ++ _) => apply one_line_app
  | |- one_line (repeat _ _) => apply one_line_repeat
  | |- one_line (list_ascii_of_string _) => reflexivity
  | |- one_line [DQ] => reflexivity
  | |- one_line (PickupLine.pickup_library _) => exact Hl
  | |- one_line _ => now apply one_line_token
  end.
Qed.

(** A line that [CopyLine] accepts and that fits its columns is rendered to
    a line from which [CopyLine] builds the same value. *)
Lemma copy_str_init line c :
  CopyLine.init line = inr c -> copy_fits c ->
  CopyLine.init (CopyLine.str c) = inr c.
Proof.
  intros Hc (Hn & Hi & Ht).
  destruct (init_groups_ok _ _ Hc) as ((F2 & L2) & (F3 & L3) & (F4 & L4)).
  destruct (init_inv _ _ Hc) as (m0 & g1 & _ & Hint & Hof).
  pose proof (str_of_int_small _ Hn) as Ld.
  pose proof (str_of_int_nonempty (CopyLine.copies c)) as Ld'.
  destruct (search_rendered (str_of_int (CopyLine.copies c)) _ _ _
              (str_of_int_digits _) (conj Ld' Ld) F2 (conj L2 Hi)
              F3 (conj L3 Ht) F4 L4) as [m Hm].
  unfold CopyLine.init, CopyLine.str. rewrite Hm, int_str_of_int.
  unfold of_groups in Hof. rewrite Hint in Hof. exact Hof.
Qed.

Lemma nth_one_line lines i :
  Forall one_line lines -> one_line (nth i lines []).
Proof.
  intros F. destruct (nth_in_or_default i lines []) as [H|E].
  - rewrite Forall_forall in F. now apply F.
  - rewrite E. reflexivity.
Qed.

(** The first line of a trimmed block with lines. *)
Lemma first_line_key block :
  splitlines (strip block) <> [] ->
  strip (nth 0 (splitlines (strip block)) []) <> [] .
Proof.
  pose proof (strip_trimmed block) as [H _].
  destruct (strip block) as [|c s]; [intros N; now contradiction N|].
  intros _. simpl in H. unfold splitlines. cbn [splitlines_go].
  rewrite (nonspace_nonbreak c H).
  destruct (splitlines_go_head s [c] ltac:(discriminate)) as (l & ls & E).
  rewrite E. cbn [rev app nth]. unfold strip.
  rewrite (lstrip_id (c :: l)) by exact H.
  pose proof (rstrip_app_char [] c l H) as R. cbn [app] in R.
  rewrite R. discriminate.
Qed.

(** What [SirsiEntry] builds is canonical, and comes from a copy line and
    a pickup line that were accepted. *)
Lemma entry_init_ok block e :
  SirsiEntry.init block = inr e ->
  entry_ok e /\
  (exists l3, CopyLine.init l3 = inr (SirsiEntry.copy_line e)) /\
  (exists l4, PickupLine.init l4 = inr (SirsiEntry.pickup_line e)).
Proof.
  destruct (entry_init block) as [[_ H]|[L (a & ts & Ha & Hts & H)]];
    rewrite H; [discriminate|].
  set (lines := splitlines (strip block)) in *.
  pose proof (splitlines_one_line (strip block)) as OL. fold lines in OL.
  destruct (CopyLine.init (nth 3 lines [])) as [?|c] eqn:Ec; [discriminate|].
  destruct (PickupLine.init (nth 4 lines [])) as [?|p] eqn:Ep; [discriminate|].
  cbn [bind]. intros [= <-].
  split; [|split; [now exists (nth 3 lines [])|now exists (nth 4 lines [])]].
  unfold entry_ok. cbn [SirsiEntry.alpha_key SirsiEntry.author_line
    SirsiEntry.title_statement SirsiEntry.copy_line SirsiEntry.pickup_line].
  assert (O : forall i, one_line (nth i lines [])) 
    by (intros i; now apply nth_one_line).
  assert (OA : forall x,
    (In x (AuthorLine.last_name a) \/ In x (AuthorLine.first_name a) \/
     exists y, AuthorLine.birth_year a = Some y /\ In x y) ->
    islinebreak x = false).
  { intros x Hx. apply (author_chars _ _ x Ha) in Hx. apply In_strip in Hx.
    now apply (proj1 (one_line_In _) (O 1)). }
  assert (OT : forall x,
    In x (TitleStatement.title ts) \/ In x (TitleStatement.author ts) ->
    islinebreak x = false).
  { intros x Hx. apply (title_chars _ _ x Hts) in Hx. apply In_strip in Hx.
    now apply (proj1 (one_line_In _) (O 2)). }
  split; [|split; [|split; [|split]]].
  - split; [|split].
    + apply first_line_key. fold lines. intros E. rewrite E in L.
      simpl in L. lia.
    + apply strip_trimmed.
    + apply one_line_strip, O.
  - split; [exact (author_init_ok _ _ Ha)|split; [|split]].
    + apply one_line_In. intros x Hx. apply OA. now left.
    + apply one_line_In. intros x Hx. apply OA. right. now left.
    + destruct (AuthorLine.birth_year a) as [y|] eqn:Ey; [|exact I].
      apply one_line_In. intros x Hx. apply OA. right. right. now exists y.
  - split; [exact (title_init_ok _ _ Hts)|split].
    + apply one_line_In. intros x Hx. apply OT. now left.
    + apply one_line_In. intros x Hx. apply OT. now right.
  - exact (copy_init_ok _ _ Ec).
  - split; [exact (pickup_init_ok _ _ Ep)|].
    apply one_line_In. intros x Hx.
    apply (proj1 (one_line_In _) (O 4)). exact (pickup_chars _ _ x Ep Hx).
Qed.

Lemma stops_rev_token X d : token d -> stops isspace (rev (X ++ d)).
Proof.
  intros [F L]. rewrite rev_app_distr.
  destruct (rev d) as [|c r] eqn:E.
  - apply (f_equal (@length ascii)) in E. rewrite length_rev in E.
    simpl in E. lia.
  - cbn [app stops].
    assert (Hc : In c d) by (apply in_rev; rewrite E; now left).
    rewrite forallb_forall in F. specialize (F c Hc).
    now apply negb_true_iff in F.
Qed.

Lemma splitlines_go_sep l rest :
  one_line l ->
  splitlines_go [] (l ++ [LF] ++ rest) = l :: splitlines_go [] rest.
Proof. intros H. exact (splitlines_go_line l rest [] H). Qed.

(** A rendered entry is trimmed and has the five rendered lines. *)
Lemma entry_str_lines e :
  entry_ok e ->
  splitlines (strip (SirsiEntry.str e)) =
  [SirsiEntry.alpha_key e;
   AuthorLine.str (SirsiEntry.author_line e);
   TitleStatement.str (SirsiEntry.title_statement e);
   CopyLine.str (SirsiEntry.copy_line e);
   PickupLine.str (SirsiEntry.pickup_line e)].
Proof.
  intros ((Kn & Kt & Ko) & (Ao & Al & Af & Ay) & (To & Tt & Ta) & Co & (Po & Pl)).
  assert (T : trimmed (SirsiEntry.str e)).
  { split.
    - unfold SirsiEntry.str. destruct (SirsiEntry.alpha_key e) as [|c k];
        [congruence|]. exact (proj1 Kt).
    - unfold SirsiEntry.str, PickupLine.str, PickupLine.right.
      rewrite !app_assoc. apply stops_rev_token. exact (proj2 Po). }
  rewrite (strip_id _ T). unfold splitlines, SirsiEntry.str.
  rewrite (splitlines_go_sep _ _ Ko).
  rewrite (splitlines_go_sep _ _ (one_line_author_str _ Al Af Ay)).
  rewrite (splitlines_go_sep _ _ (one_line_title_str _ Tt Ta)).
  rewrite (splitlines_go_sep _ _ (one_line_copy_str _ Co)).
  rewrite (splitlines_go_last _ [] (one_line_pickup_str _ Po Pl));
    [reflexivity|].
  unfold PickupLine.str, PickupLine.indent. discriminate.
Qed.

(** An accepted entry whose copy line fits its columns is rendered to a
    block from which [SirsiEntry] builds the same entry. *)
Lemma entry_str_init block e :
  SirsiEntry.init block = inr e ->
  copy_fits (SirsiEntry.copy_line e) ->
  SirsiEntry.init (SirsiEntry.str e) = inr e.
Proof.
  intros H Hfit.
  destruct (entry_init_ok _ _ H) as (Ok & [l3 Hc] & [l4 Hp]).
  pose proof (entry_str_lines e Ok) as Hl.
  destruct Ok as ((Kn & Kt & Ko) & (Ao & _) & (To & _) & Co & (Po & _)).
  unfold SirsiEntry.init. cbn zeta. rewrite Hl.
  cbn [length Nat.ltb Nat.leb getitem nth_error bind ret].
  rewrite author_init_strip, (author_str_init _ Ao). cbn [bind].
  rewrite title_init_strip, (title_str_init _ To). cbn [bind].
  rewrite (copy_str_init _ _ Hc Hfit). cbn [bind].
  rewrite (pickup_str_init _ Po). cbn [bind].
  rewrite (strip_id _ Kt). unfold ret. now destruct e.
Qed.

End EntryFacts.

(** ** Blocks of a rendered report *)

Section ReportFacts.
Import Re Spec Shape.

Lemma sep_free_tail c s : sep_free (c :: s) = true -> sep_free s = true.
Proof. cbn [sep_free]. intros H. now apply andb_true_iff in H as [_ H]. Qed.

Lemma sep_free_no_start c s rest :
  sep_free (c :: s) = true ->
  startswith [LF; LF] (c :: s ++ LF :: LF :: rest) = false.
Proof.
  cbn [sep_free startswith]. intros H.
  apply andb_true_iff in H as [H _]. apply negb_true_iff in H.
  rewrite (Ascii.eqb_sym LF c).
  destruct (Ascii.eqb c LF); [|reflexivity]. cbn [andb] in *.
  destruct s as [|d s]; [discriminate|]. cbn [app].
  rewrite (Ascii.eqb_sym LF d), H. reflexivity.
Qed.

Lemma sep_free_no_start_last c s :
  sep_free (c :: s) = true -> startswith [LF; LF] (c :: s) = false.
Proof.
  cbn [sep_free startswith]. intros H.
  apply andb_true_iff in H as [H _]. apply negb_true_iff in H.
  rewrite (Ascii.eqb_sym LF c).
  destruct (Ascii.eqb c LF); [|reflexivity]. cbn [andb] in *.
  destruct s as [|d s]; [reflexivity|].
  rewrite (Ascii.eqb_sym LF d), H. reflexivity.
Qed.

Lemma split_go_block rest : forall b cur,
  sep_free b = true ->
  split_go [LF; LF] 0 cur (b ++ LF :: LF :: rest) =
  (rev cur ++ b) :: split_go [LF; LF] 0 [] rest.
Proof.
  induction b as [|c b IH]; intros cur H.
  - cbn [app]. cbn [split_go startswith]. rewrite Ascii.eqb_refl.
    cbn [andb length Nat.sub]. rewrite app_nil_r.
    destruct rest; reflexivity.
  - cbn [app split_go]. rewrite (sep_free_no_start c b rest H).
    rewrite (IH (c :: cur) (sep_free_tail _ _ H)).
    cbn [rev]. now rewrite <- app_assoc.
Qed.

Lemma split_go_last_block : forall b cur,
  sep_free b = true -> split_go [LF; LF] 0 cur b = [rev cur ++ b].
Proof.
  induction b as [|c b IH]; intros cur H.
  - cbn [split_go]. now rewrite app_nil_r.
  - cbn [split_go]. rewrite (sep_free_no_start_last c b H).
    rewrite (IH (c :: cur) (sep_free_tail _ _ H)).
    cbn [rev]. now rewrite <- app_assoc.
Qed.

(** Splitting at blank lines what was joined by blank lines. *)
Lemma split_join_blocks : forall bs,
  Forall (fun b => sep_free b = true) bs -> bs <> [] ->
  split [LF; LF] (Py.join [LF; LF] bs) = bs.
Proof.
  induction bs as [|b bs IH]; intros F N; [congruence|].
  inversion F as [|? ? Hb F']; subst. cbn [Py.join].
  destruct bs as [|b' bs].
  - unfold split. now rewrite split_go_last_block.
  - cbn [app]. unfold split. rewrite split_go_block by exact Hb.
    cbn [rev app]. f_equal. apply IH; [exact F'|discriminate].
Qed.

Lemma sep_free_one_line l : one_line l -> sep_free l = true.
Proof.
  induction l as [|c l IH]; intros H; [reflexivity|].
  unfold one_line in H. cbn [forallb] in H.
  apply andb_true_iff in H as [Hc H]. cbn [sep_free].
  rewrite (IH H), andb_true_r. apply negb_true_iff.
  destruct (Ascii.eqb_spec c LF) as [->|_]; [discriminate|reflexivity].
Qed.

(** A line, a line feed and a text that does not start with a line feed. *)
Lemma sep_free_line l d rest :
  one_line l -> d <> LF -> sep_free (d :: rest) = true ->
  sep_free (l ++ LF :: d :: rest) = true.
Proof.
  intros Hl Hd Hr. induction l as [|c l IH].
  - cbn [app]. cbn [sep_free] in *. rewrite Hr.
    destruct (Ascii.eqb_spec d LF) as [E|_]; [contradiction|reflexivity].
  - unfold one_line in Hl. cbn [forallb] in Hl.
    apply andb_true_iff in Hl as [Hc Hl]. cbn [app sep_free].
    rewrite (IH Hl), andb_true_r. apply negb_true_iff.
    destruct (Ascii.eqb_spec c LF) as [->|_]; [discriminate|reflexivity].
Qed.

Lemma one_line_head l :
  one_line l -> l <> [] -> exists d r, l = d :: r /\ d <> LF.
Proof.
  destruct l as [|d r]; [congruence|]. intros H _. exists d, r.
  split; [reflexivity|]. intros ->. discriminate.
Qed.

(** A rendered entry holds no blank line. *)
Lemma sep_free_entry e : entry_ok e -> sep_free (SirsiEntry.str e) = true.
Proof.
  intros ((Kn & Kt & Ko) & (Ao & Al & Af & Ay) & (To & Tt & Ta) & Co & (Po & Pl)).
  pose proof (one_line_author_str _ Al Af Ay) as OA.
  pose proof (one_line_title_str _ Tt Ta) as OT.
  pose proof (one_line_copy_str _ Co) as OC.
  pose proof (one_line_pickup_str _ Po Pl) as OP.
  unfold SirsiEntry.str.
  destruct (one_line_head _ OP) as (d4 & r4 & E4 & N4);
    [unfold PickupLine.str, PickupLine.indent; discriminate|].
  destruct (one_line_head _ OC) as (d3 & r3 & E3 & N3);
    [unfold CopyLine.str; discriminate|].
  destruct (one_line_head _ OT) as (d2 & r2 & E2 & N2);
    [unfold TitleStatement.str; discriminate|].
  destruct (one_line_head _ OA) as (d1 & r1 & E1 & N1);
    [destruct (SirsiEntry.author_line e) as [? ? [?|]];
       unfold AuthorLine.str; discriminate|].
  assert (S4 : sep_free (PickupLine.str (SirsiEntry.pickup_line e)) = true)
    by now apply sep_free_one_line.
  rewrite E4 in S4 |- *.
  assert (S3 : sep_free (CopyLine.str (SirsiEntry.copy_line e) ++
                         [LF] ++ d4 :: r4) = true)
    by (apply sep_free_line; assumption).
  rewrite E3 in S3 |- *. cbn [app] in S3.
  assert (S2 : sep_free (TitleStatement.str (SirsiEntry.title_statement e) ++
                         [LF] ++ d3 :: r3 ++ [LF] ++ d4 :: r4) = true)
    by (apply sep_free_line; assumption).
  rewrite E2 in S2 |- *. cbn [app] in S2.
  assert (S1 : sep_free (AuthorLine.str (SirsiEntry.author_line e) ++
                         [LF] ++ d2 :: r2 ++ [LF] ++ d3 :: r3 ++
                         [LF] ++ d4 :: r4) = true)
    by (apply sep_free_line; assumption).
  rewrite E1 in S1 |- *. cbn [app] in S1.
  apply sep_free_line; assumption.
Qed.

Lemma entry_str_nonblank e :
  entry_ok e -> strip (SirsiEntry.str e) <> [].
Proof.
  intros Ok. pose proof (entry_str_lines e Ok) as H.
  intros E. rewrite E in H. discriminate.
Qed.

Lemma filter_all {A} (f : A -> bool) l :
  Forall (fun x => f x = true) l -> filter f l = l.
Proof.
  induction 1 as [|x l Hx _ IH]; [reflexivity|].
  cbn [filter]. now rewrite Hx, IH.
Qed.

(** The blocks of entries rendered and joined by blank lines. *)
Lemma blocks_of_rendered es :
  Forall entry_ok es ->
  SirsiParser.blocks (Py.join [LF; LF] (map SirsiEntry.str es)) =
  map SirsiEntry.str es.
Proof.
  intros F. unfold SirsiParser.blocks.
  destruct es as [|e es]; [reflexivity|].
  rewrite split_join_blocks.
  - apply filter_all. apply Forall_map.
    revert F. apply Forall_impl. intros x Ok.
    pose proof (entry_str_nonblank x Ok) as N.
    destruct (strip (SirsiEntry.str x)); [congruence|reflexivity].
  - apply Forall_map. revert F. apply Forall_impl.
    intros x Ok. now apply sep_free_entry.
  - discriminate.
Qed.

Lemma survivors_of_rendered es :
  Forall parsed_and_fits es ->
  flat_map survivors (map SirsiEntry.str es) = es.
Proof.
  induction 1 as [|e es [[block Hb] Hfit] _ IH]; [reflexivity|].
  cbn [map flat_map]. unfold survivors at 1.
  now rewrite (entry_str_init block e Hb Hfit), IH.
Qed.

Lemma parse_eq text :
  SirsiParser.parse text =
  inr (SirsiReport.mk (SirsiParser.find_header text)
         (flat_map survivors (SirsiParser.blocks text))).
Proof. unfold SirsiParser.parse. now rewrite parse_loop. Qed.

Lemma join_snoc (sep : pystr) : forall parts p,
  Py.join sep (parts ++ [p]) =
  Py.join sep parts ++ match parts with [] => [] | _ => sep end ++ p.
Proof.
  induction parts as [|q parts IH]; intros p; [reflexivity|].
  cbn [app Py.join]. destruct parts as [|r parts].
  - reflexivity.
  - cbn [app] in *. rewrite (IH p). now rewrite <- !app_assoc.
Qed.

End ReportFacts.

(** ** Lines that the patterns cannot match *)

Section ErrorFacts.
Import Re Spec Shape.

(** A match of a pattern that starts with literal text starts with that
    text. *)
Lemma match_here_lit_start w pat : forall s r,
  match_here (lit w ++ pat) s = Some r ->
  startswith (list_ascii_of_string w) s = true.
Proof.
  unfold lit. induction (list_ascii_of_string w) as [|c l IH]; intros s r H.
  - reflexivity.
  - cbn [map app match_here] in H. destruct s as [|a s]; [discriminate|].
    destruct (Ascii.eqb a c) eqn:E; [|discriminate].
    destruct (match_here (map Lit l ++ pat) s) as [[m gs]|] eqn:M;
      [|discriminate].
    cbn [startswith]. rewrite (Ascii.eqb_sym c a), E. cbn [andb].
    exact (IH s _ M).
Qed.

Lemma contains_skipn w : forall s i,
  contains w s = false -> startswith w (skipn i s) = false.
Proof.
  induction s as [|c s IH]; intros i H.
  - rewrite skipn_nil. cbn [contains] in H.
    now apply orb_false_iff in H as [H _].
  - cbn [contains] in H. apply orb_false_iff in H as [H1 H2].
    destruct i as [|i]; [exact H1|]. cbn [skipn]. now apply IH.
Qed.

(** A text that does not hold the literal start of a pattern has no match
    of it. *)
Lemma search_without_start w pat s :
  contains (list_ascii_of_string w) s = false ->
  search (lit w ++ pat) s = None.
Proof.
  intros H. apply search_none. intros j.
  destruct (match_here (lit w ++ pat) (skipn j s)) as [r|] eqn:E;
    [|reflexivity].
  apply match_here_lit_start in E.
  now rewrite (contains_skipn _ s j H) in E.
Qed.

(** The entry constructor reads the first five lines only. *)
Lemma entry_init_lines b b' :
  firstn 5 (splitlines (strip b)) = firstn 5 (splitlines (strip b')) ->
  5 <= length (splitlines (strip b)) ->
  5 <= length (splitlines (strip b')) ->
  SirsiEntry.init b = SirsiEntry.init b'.
Proof.
  intros E L L'. unfold SirsiEntry.init. cbn zeta.
  apply Nat.ltb_ge in L, L'. rewrite L, L'.
  assert (G : forall i, i < 5 ->
    getitem (splitlines (strip b)) i = getitem (splitlines (strip b')) i).
  { intros i Hi. unfold getitem.
    pose proof (nth_error_firstn 5 (splitlines (strip b)) i) as F.
    pose proof (nth_error_firstn 5 (splitlines (strip b')) i) as F'.
    apply Nat.ltb_lt in Hi. rewrite Hi in F, F'.
    now rewrite <- F, <- F', E. }
  rewrite (G 0), (G 1), (G 2), (G 3), (G 4) by lia. reflexivity.
Qed.

(** A line without the first label of a pattern is refused, and the error
    carries the line. *)
Lemma copyline_without_label line :
  contains ("copy:" : string) line = false ->
  CopyLine.init line =
    inl (ValueError (("Cannot parse copy line: " : string) ++ line)).
Proof.
  intros H. unfold CopyLine.init, CopyLine.COPY_RE.
  now rewrite (search_without_start "copy:" _ line H).
Qed.

Lemma pickupline_without_label line :
  contains ("Pickup library:" : string) line = false ->
  PickupLine.init line =
    inl (ValueError (("Cannot parse pickup line: " : string) ++ line)).
Proof.
  intros H. unfold PickupLine.init, PickupLine.PICKUP_RE.
  now rewrite (search_without_start "Pickup library:" _ line H).
Qed.

End ErrorFacts.

(** ** One sort after the other *)

Section OrderMore.
Import Spec.

Lemma str_ltb_trans a : forall b c,
  str_ltb a b = true -> str_ltb b c = true -> str_ltb a c = true.
Proof.
  induction a as [|x a IH]; intros [|y b] [|z c] H1 H2; simpl in *;
    try reflexivity; try discriminate.
  destruct (code x <? code y) eqn:E1, (code y <? code x) eqn:E1',
           (code y <? code z) eqn:E2, (code z <? code y) eqn:E2',
           (code x <? code z) eqn:E3, (code z <? code x) eqn:E3';
    try reflexivity; try discriminate;
    repeat match goal with
    | H : (_ <? _) = true |- _ => apply Nat.ltb_lt in H
    | H : (_ <? _) = false |- _ => apply Nat.ltb_ge in H
    end; try lia.
  now apply (IH b c).
Qed.

(** The order of the keys, component by component. *)
Lemma key_ltb_spec i1 l1 f1 i2 l2 f2 :
  SirsiReport.key_ltb (i1, l1, f1) (i2, l2, f2) = true <->
  i1 < i2 \/
  (i1 = i2 /\ (str_ltb l1 l2 = true \/ (l1 = l2 /\ str_ltb f1 f2 = true))).
Proof.
  simpl. destruct (i1 =? i2) eqn:Ei; simpl.
  - apply Nat.eqb_eq in Ei. subst i2.
    destruct (str_eqb l1 l2) eqn:El; simpl.
    + apply str_eqb_eq in El. subst l2.
      destruct (str_eqb f1 f2) eqn:Ef; simpl.
      * apply str_eqb_eq in Ef. subst f2. rewrite !str_ltb_irrefl.
        split; [discriminate|]. intros [H|[_ [H|[_ H]]]];
          [lia|discriminate|discriminate].
      * rewrite str_ltb_irrefl. split; [now right; split; [|right]|].
        intros [H|[_ [H|[_ H]]]]; [lia|discriminate|exact H].
    + assert (N : l1 <> l2)
        by (intros E; apply str_eqb_eq in E; congruence).
      split; [now right; split; [|left]|].
      intros [H|[_ [H|[E _]]]]; [lia|exact H|contradiction].
  - apply Nat.eqb_neq in Ei. rewrite Nat.ltb_lt.
    split; [now left|]. intros [H|[E _]]; [exact H|contradiction].
Qed.

Lemma key_ltb_trans a b c :
  SirsiReport.key_ltb a b = true -> SirsiReport.key_ltb b c = true ->
  SirsiReport.key_ltb a c = true.
Proof.
  destruct a as [[i1 l1] f1], b as [[i2 l2] f2], c as [[i3 l3] f3].
  rewrite !key_ltb_spec.
  intros [H1|[E1 [H1|[L1 H1]]]] [H2|[E2 [H2|[L2 H2]]]]; subst;
    try (left; lia); right; (split; [reflexivity|]).
  - left. now apply (str_ltb_trans l1 l2 l3).
  - now left.
  - now left.
  - right. split; [reflexivity|]. now apply (str_ltb_trans f1 f2 f3).
Qed.

Lemma rank_below_key order a b :
  (rank order a <? rank order b) = true ->
  SirsiReport.key_ltb (key_of order a) (key_of order b) = true.
Proof.
  intros H. apply Nat.ltb_lt in H. unfold key_of.
  apply key_ltb_spec. now left.
Qed.

End OrderMore.

Section Compose.
Context {K K' A : Type}.
Variable ltb : K -> K -> bool.
Variable f : A -> K.
Variable ltb' : K' -> K' -> bool.
Variable g : A -> K'.
Hypothesis asym : forall a b, ltb a b = true -> ltb b a = false.
Hypothesis trans : forall a b c,
  ltb a b = true -> ltb b c = true -> ltb a c = true.
Hypothesis finer : forall x y,
  ltb' (g y) (g x) = true -> ltb (f y) (f x) = true.

(** Two insertions commute when one key is below the other. *)
Lemma insert_k_comm x y : forall s,
  ltb (f y) (f x) = true ->
  Spec.insert_k ltb f y (Spec.insert_k ltb f x s) =
  Spec.insert_k ltb f x (Spec.insert_k ltb f y s).
Proof.
  intros s H. induction s as [|z s IH]; cbn [Spec.insert_k].
  - now rewrite (asym _ _ H), H.
  - destruct (ltb (f z) (f y)) eqn:Ezy.
    + rewrite (trans _ _ _ Ezy H). cbn [Spec.insert_k].
      now rewrite Ezy, (trans _ _ _ Ezy H), IH.
    + cbn [Spec.insert_k]. rewrite H.
      destruct (ltb (f z) (f x)) eqn:Ezx; cbn [Spec.insert_k].
      * now rewrite Ezy.
      * now rewrite (asym _ _ H).
Qed.

(** Sorting by a key after an insertion by a coarser one. *)
Lemma sort_k_insert_coarser x : forall m,
  Spec.sort_k ltb f (Spec.insert_k ltb' g x m) =
  Spec.insert_k ltb f x (Spec.sort_k ltb f m).
Proof.
  induction m as [|y m IH]; [reflexivity|].
  cbn [Spec.insert_k]. destruct (ltb' (g y) (g x)) eqn:E.
  - cbn [Spec.sort_k]. rewrite IH.
    apply insert_k_comm. now apply finer.
  - reflexivity.
Qed.

(** A sort by a coarser key first does not change the outcome of the
    sort. *)
Lemma sort_k_after_coarser l :
  Spec.sort_k ltb f (Spec.sort_k ltb' g l) = Spec.sort_k ltb f l.
Proof.
  induction l as [|x l IH]; [reflexivity|].
  cbn [Spec.sort_k]. now rewrite sort_k_insert_coarser, IH.
Qed.

End Compose.

(** * The claims *)

(** C1, as stated, fails: the line [copy:12345 item ID:A type:B location:C]
    is accepted, its rendering starts [     copy:12345item ID:A] with no blank
    after the five digits, and the rendered line is refused.  The same
    happens with an item id of 18 characters and with a type of 12
    characters, which fill their columns. *)
Lemma C1_wide_copies_not_reparsed :
  (exists c,
     CopyLine.init ("copy:12345 item ID:A type:B location:C" : string) = inr c /\
     CopyLine.copies c = 12345%N /\
     forall c', CopyLine.init (CopyLine.str c) <> inr c') /\
  (exists c,
     CopyLine.init
       ("copy:1 item ID:312340001234567890 type:B location:C" : string) = inr c /\
     length (CopyLine.item_id c) = 18 /\
     forall c', CopyLine.init (CopyLine.str c) <> inr c') /\
  (exists c,
     CopyLine.init
       ("copy:1 item ID:A type:PAPERBACK-YA location:C" : string) = inr c /\
     length (CopyLine.type c) = 12 /\
     forall c', CopyLine.init (CopyLine.str c) <> inr c').
Proof.
  repeat split;
    (eexists; split; [vm_compute; reflexivity|]; split; [reflexivity|];
     intros c'; vm_compute; discriminate).
Qed.

(** C1 (amended): for every line that [CopyLine] accepts and whose parsed
    [copies] is below 10000, [item_id] shorter than 18 characters and [type]
    shorter than 12 characters, parsing the rendered line gives back the same
    [copies], [item_id], [type] and [location], hence the same
    [main_location] and [sub_location]. *)
Theorem C1_copyline_roundtrip (line : pystr) (c : CopyLine.t) :
  CopyLine.init line = inr c ->
  (CopyLine.copies c < 10000)%N ->
  length (CopyLine.item_id c) < 18 ->
  length (CopyLine.type c) < 12 ->
  CopyLine.init (CopyLine.str c) = inr c.
Proof.
  intros Hc Hn Hi Ht.
  destruct (init_groups_ok _ _ Hc) as ((F2 & L2) & (F3 & L3) & (F4 & L4)).
  destruct (init_inv _ _ Hc) as (m0 & g1 & _ & Hint & Hof).
  pose proof (str_of_int_small _ Hn) as Ld.
  pose proof (str_of_int_nonempty (CopyLine.copies c)) as Ld'.
  destruct (search_rendered (str_of_int (CopyLine.copies c)) _ _ _
              (str_of_int_digits _) (conj Ld' Ld) F2 (conj L2 Hi)
              F3 (conj L3 Ht) F4 L4) as [m Hm].
  unfold CopyLine.init, CopyLine.str. rewrite Hm.
  rewrite int_str_of_int.
  unfold Spec.of_groups in Hof. rewrite Hint in Hof. exact Hof.
Qed.

Lemma C1_copyline_roundtrip_witness :
  let c := CopyLine.mk 2 ("ABC123" : string) ("BOOK" : string)
             ("FIC-A" : string) ("FIC" : string) (Some (list_ascii_of_string "A")) in
  CopyLine.init (CopyLine.str c) = inr c.
Proof.
  intros c.
  apply (C1_copyline_roundtrip
           ("copy:2   item ID:ABC123   type:BOOK   location:FIC-A" : string) c).
  - vm_compute. reflexivity.
  - reflexivity.
  - simpl. lia.
  - simpl. lia.
Defined.

(** C10: [CopyLine.str] never cuts a field.  The rendered line is the indent
    and, for each column, its label, the whole field and [w - length] spaces
    of padding (none once the field fills its width [w] of 5, 18, 12 and
    12); its length is 32 characters of indent and labels plus, per column,
    the larger of the width and the field length, so it is longer than the
    79 characters of the fixed layout as soon as one field is wider than its
    column. *)
Theorem C10_copyline_str_never_truncates (c : CopyLine.t) :
  let d := str_of_int (CopyLine.copies c) in
  let i := CopyLine.item_id c in
  let t := CopyLine.type c in
  let l := CopyLine.location c in
  CopyLine.str c =
    ("     copy:" : string) ++ d ++ repeat " "%char (5 - length d) ++
    ("item ID:" : string) ++ i ++ repeat " "%char (18 - length i) ++
    ("type:" : string) ++ t ++ repeat " "%char (12 - length t) ++
    ("location:" : string) ++ l ++ repeat " "%char (12 - length l) /\
  length (CopyLine.str c) =
    32 + Nat.max 5 (length d) + Nat.max 18 (length i) +
    Nat.max 12 (length t) + Nat.max 12 (length l) /\
  (5 < length d \/ 18 < length i \/ 12 < length t \/ 12 < length l ->
   79 < length (CopyLine.str c)).
Proof.
  intros d i t l.
  assert (E : CopyLine.str c =
    ("     copy:" : string) ++ d ++ repeat " "%char (5 - length d) ++
    ("item ID:" : string) ++ i ++ repeat " "%char (18 - length i) ++
    ("type:" : string) ++ t ++ repeat " "%char (12 - length t) ++
    ("location:" : string) ++ l ++ repeat " "%char (12 - length l)).
  { unfold CopyLine.str, ljust. fold d i t l.
    rewrite <- !app_assoc. reflexivity. }
  assert (L : length (CopyLine.str c) =
    32 + Nat.max 5 (length d) + Nat.max 18 (length i) +
    Nat.max 12 (length t) + Nat.max 12 (length l)).
  { rewrite E. repeat rewrite length_app. repeat rewrite repeat_length.
    change (length (list_ascii_of_string "     copy:")) with 10.
    change (length (list_ascii_of_string "item ID:")) with 8.
    change (length (list_ascii_of_string "type:")) with 5.
    change (length (list_ascii_of_string "location:")) with 9.
    lia. }
  split; [exact E|]. split; [exact L|]. intros H. rewrite L. lia.
Qed.

Lemma C10_copyline_str_never_truncates_witness :
  exists c,
    CopyLine.init
      ("copy:1 item ID:31234000123456789012 type:BOOK location:FIC" : string)
      = inr c /\
    length (CopyLine.item_id c) = 20 /\
    79 < length (CopyLine.str c).
Proof.
  eexists. split; [vm_compute; reflexivity|]. split; [reflexivity|].
  apply C10_copyline_str_never_truncates. right. left. simpl. lia.
Defined.

(** C7, as stated, fails at 78: for the accepted line below, indent, left
    and right segments make 78 characters and the padding is two spaces, not
    one (the line is 80 characters long). *)
Lemma C7_padding_at_78_is_two :
  exists p,
    PickupLine.init
      (("  Pickup library:" : string) ++ [DQ] ++
       ("ABCDEFGHIJKLMNOPQRSTUVWXYZ01234" : string) ++ [DQ] ++
       (" Date of discharge:01/02/2024" : string)) = inr p /\
    length PickupLine.indent + length (PickupLine.left p) +
      length (PickupLine.right p) = 78 /\
    PickupLine.padding p = 2 /\
    length (PickupLine.str p) = 80.
Proof.
  eexists. split; [vm_compute; reflexivity|]. repeat split.
Qed.

(** C7 (amended): the rendered pickup line is the 2-space indent, the left
    segment, the padding and the right segment; the padding is never less
    than one space, it brings the line to exactly 80 characters when indent,
    left and right make 79 characters or fewer, and it is exactly one space
    when they make 79 characters or more; nothing is cut. *)
Theorem C7_pickupline_padding (p : PickupLine.t) :
  let natural := length PickupLine.indent + length (PickupLine.left p) +
                 length (PickupLine.right p) in
  PickupLine.str p =
    ("  " : string) ++
    (("Pickup library:" : string) ++ [DQ] ++ PickupLine.pickup_library p ++ [DQ]) ++
    repeat " "%char (PickupLine.padding p) ++
    (("Date of discharge:" : string) ++ PickupLine.discharge_date p) /\
  1 <= PickupLine.padding p /\
  length (PickupLine.str p) = natural + PickupLine.padding p /\
  (natural <= 79 -> length (PickupLine.str p) = 80) /\
  (79 <= natural -> PickupLine.padding p = 1).
Proof.
  intros natural. split; [reflexivity|].
  assert (L : length (PickupLine.str p) = natural + PickupLine.padding p).
  { unfold PickupLine.str, natural. repeat rewrite length_app.
    rewrite repeat_length. lia. }
  unfold PickupLine.padding, PickupLine.TOTAL_WIDTH in *. fold natural in L.
  repeat split; try lia.
Qed.

Lemma C7_pickupline_padding_witness :
  let p := PickupLine.mk ("MAIN" : string) ("01/02/2024" : string) in
  length (PickupLine.str p) = 80.
Proof.
  intros p. apply (C7_pickupline_padding p). vm_compute. lia.
Defined.

(** C6: a fragment without a slash gives the whole trimmed fragment as title
    and an empty author, and renders as two spaces, the title and the
    separator [" / "] with its trailing space. *)
Theorem C6_title_without_separator (text : pystr) :
  contains ("/" : string) text = false ->
  exists ts,
    TitleStatement.init text = inr ts /\
    TitleStatement.title ts = strip text /\
    TitleStatement.author ts = [] /\
    TitleStatement.str ts = ("  " : string) ++ strip text ++ (" / " : string).
Proof.
  intros H. unfold TitleStatement.init. rewrite H.
  eexists. split; [reflexivity|]. repeat split.
Qed.

Lemma C6_title_without_separator_witness :
  exists ts,
    TitleStatement.init ("Some Book" : string) = inr ts /\
    TitleStatement.title ts = ("Some Book" : string) /\
    TitleStatement.author ts = [] /\
    TitleStatement.str ts = ("  Some Book / " : string).
Proof.
  destruct (C6_title_without_separator ("Some Book" : string) eq_refl)
    as (ts & H1 & H2 & H3 & H4).
  exists ts. repeat split; assumption.
Defined.

(** C5, as stated, fails on a fragment with three commas: the source cuts
    it into four parts, not into at most three, and the birth year is taken
    from the third of them alone, where a cut into at most three parts would
    leave the rest of the fragment in it. *)
Lemma C5_more_than_three_parts :
  let text : pystr := ("Smith, John, 1950-, ed." : string) in
  length (split "," text) = 4 /\
  AuthorLine.init text =
    inr (AuthorLine.mk ("Smith" : string) ("John" : string)
           (Some (list_ascii_of_string "1950"))) /\
  Spec.author_at_most_3_parts text =
    AuthorLine.mk ("Smith" : string) ("John" : string)
      (Some (list_ascii_of_string "1950-, ed")) /\
  AuthorLine.init text <> inr (Spec.author_at_most_3_parts text).
Proof.
  cbn zeta. repeat split; try (vm_compute; reflexivity).
  vm_compute. discriminate.
Qed.

(** C5 (amended): [AuthorLine] cuts its input at every comma, into as many
    parts as needed (the parts hold no comma and, joined by commas, give the
    input back); each part is trimmed; part 0 is the last name (the whole
    fragment when there is no comma), part 1 the first name, else the empty
    string, and part 2, when present, the birth year with its final character
    removed; further parts are not read.  This holds for every input, and
    the constructor never fails. *)
Theorem C5_authorline_parts (text : pystr) :
  exists parts,
    Spec.join "," parts = text /\
    Forall (fun p => ~ In ","%char p) parts /\
    1 <= length parts /\
    AuthorLine.init text =
      inr (AuthorLine.mk
             (strip (nth 0 parts []))
             (match nth_error parts 1 with Some p => strip p | None => [] end)
             (match nth_error parts 2 with
              | Some p => Some (drop_last (strip p))
              | None => None
              end)).
Proof.
  exists (split "," text).
  destruct (split_char ","%char text) as (J & F & L).
  repeat split; try assumption.
  rewrite authorline_init.
  destruct (split "," text) as [|p0 [|p1 [|p2 rest]]]; reflexivity.
Qed.

(** C3: [SirsiParser.parse] returns a report for every text; its header is
    the captured header and its entries are, block after block in the order
    of the text, the entry of each non-blank block that [SirsiEntry] accepts.
    A block that [SirsiEntry] refuses adds nothing and the blocks before and
    after it are parsed as they would be without it. *)
Theorem C3_parse_skips_failed_blocks (text : pystr) :
  exists r,
    SirsiParser.parse text = inr r /\
    SirsiReport.header r = SirsiParser.find_header text /\
    SirsiReport.entries r =
      flat_map (fun block => match SirsiEntry.init block with
                             | inr e => [e]
                             | inl _ => []
                             end) (SirsiParser.blocks text) /\
    forall before block after,
      SirsiParser.blocks text = before ++ block :: after ->
      Spec.fails (SirsiEntry.init block) ->
      SirsiReport.entries r =
        flat_map Spec.survivors before ++ flat_map Spec.survivors after.
Proof.
  unfold SirsiParser.parse. rewrite parse_loop. cbn [bind app].
  eexists. split; [reflexivity|]. split; [reflexivity|].
  split; [reflexivity|].
  intros before block after Hb [e He]. cbn [SirsiReport.entries].
  rewrite Hb, flat_map_app. cbn [flat_map].
  unfold Spec.survivors at 2. now rewrite He.
Qed.

Lemma C3_parse_skips_failed_blocks_witness :
  let good := Spec.sample
    "KEY|  Smith, John|  A Book / J. Smith|  copy:1 item ID:31 type:BOOK location:FIC|  Pickup library:'MAIN' Date of discharge:01/02/2024" in
  let text := good ++ Spec.sample "||not|an|entry||" ++ good in
  exists r e,
    SirsiParser.parse text = inr r /\
    SirsiEntry.init good = inr e /\
    SirsiReport.entries r = [e; e].
Proof.
  intros good text.
  destruct (C3_parse_skips_failed_blocks text) as (r & Hr & _ & _ & Hskip).
  specialize (Hskip [good] (Spec.sample "not|an|entry") [good]).
  assert (Hg : exists e, SirsiEntry.init good = inr e)
    by (eexists; vm_compute; reflexivity).
  destruct Hg as [e He].
  exists r, e. split; [exact Hr|]. split; [exact He|].
  rewrite Hskip.
  - cbn [flat_map]. unfold Spec.survivors. rewrite He. reflexivity.
  - vm_compute. reflexivity.
  - eexists. vm_compute. reflexivity.
Defined.

(** C4, as stated, fails in both directions: a block of five non-empty
    lines is refused when its fourth line is no copy line, and a block with
    only four non-empty lines is accepted when an empty line between two
    line feeds brings the count of lines to five. *)
Lemma C4_line_count_is_not_the_only_test :
  let b1 := Spec.sample "k|a|t|c|p" in
  let b2 := Spec.sample
    "KEY||A Book|copy:1 item ID:31 type:BOOK location:FIC|Pickup library:'MAIN' Date of discharge:01/02/2024" in
  (length (filter (fun l => negb (length l =? 0)) (splitlines (strip b1))) = 5 /\
   SirsiEntry.init b1 =
     inl (ValueError ("Cannot parse copy line: c" : string))) /\
  (length (filter (fun l => negb (length l =? 0)) (splitlines (strip b2))) = 4 /\
   exists e, SirsiEntry.init b2 = inr e).
Proof.
  cbn zeta. split; split; try (vm_compute; reflexivity).
  eexists. vm_compute. reflexivity.
Qed.

(** C4 (amended): [SirsiEntry] fails with the parse error "Block does not
    have enough lines to parse" whenever the trimmed block splits into fewer
    than 5 lines, empty lines included; it fails, with a parse error, exactly
    when there are fewer than 5 lines or the fourth line is refused by
    [CopyLine] or the fifth by [PickupLine]; a block of fewer than 5 lines,
    so one of 3 lines, gives no entry and adds nothing to the entries of the
    parsed report. *)
Theorem C4_entry_failure (block : pystr) :
  let lines := splitlines (strip block) in
  (length lines < 5 -> SirsiEntry.init block = inl SirsiEntry.TOO_SHORT) /\
  (Spec.fails (SirsiEntry.init block) <->
     length lines < 5 \/
     Spec.fails (CopyLine.init (nth 3 lines [])) \/
     Spec.fails (PickupLine.init (nth 4 lines []))) /\
  (forall e, SirsiEntry.init block = inl e -> Spec.is_ValueError e) /\
  (length lines < 5 ->
   forall text before after,
     SirsiParser.blocks text = before ++ block :: after ->
     exists r,
       SirsiParser.parse text = inr r /\
       SirsiReport.entries r =
         flat_map Spec.survivors before ++ flat_map Spec.survivors after).
Proof.
  cbn zeta.
  destruct (entry_init block) as [[L H]|[L (a & ts & _ & _ & H)]].
  - repeat split.
    + intros _. exact H.
    + intros _. now left.
    + intros _. now exists SirsiEntry.TOO_SHORT.
    + apply entry_error.
    + intros _ text before after Hb. unfold SirsiParser.parse.
      rewrite parse_loop. cbn [bind app]. eexists. split; [reflexivity|].
      cbn [SirsiReport.entries]. rewrite Hb, flat_map_app. cbn [flat_map].
      unfold Spec.survivors at 2. now rewrite H.
  - repeat split; try lia; try apply entry_error.
    + rewrite H. intros [e He].
      destruct (CopyLine.init _) as [e1|c]; [right; left; now exists e1|].
      destruct (PickupLine.init _) as [e2|p]; [right; right; now exists e2|].
      discriminate.
    + rewrite H. intros [Hl|[[e He]|[e He]]]; [lia| |].
      * rewrite He. now exists e.
      * rewrite He. destruct (CopyLine.init _) as [e1|c]; eexists; reflexivity.
Qed.

Lemma C4_entry_failure_witness :
  SirsiEntry.init (Spec.sample "KEY|  Smith, John|  A Book / J. Smith")
    = inl SirsiEntry.TOO_SHORT.
Proof.
  apply (C4_entry_failure (Spec.sample "KEY|  Smith, John|  A Book / J. Smith")).
  vm_compute. lia.
Defined.

(** C8: when the header pattern occurs in the text, [m1] being the text of
    its first (leftmost) occurrence, and occurs again right after it, the
    captured header is [m1] alone: it does not run on into the second
    occurrence.  When the pattern occurs nowhere, the captured header is the
    empty string. *)
Theorem C8_header_is_first_occurrence (text : pystr) :
  (forall i m1 m2,
     Spec.header_at text i m1 ->
     (forall j m, j < i -> ~ Spec.header_at text j m) ->
     Spec.header_at text (i + length m1) m2 ->
     SirsiParser.find_header text = m1 /\
     SirsiParser.find_header text <> m1 ++ m2) /\
  ((forall j m, ~ Spec.header_at text j m) ->
   SirsiParser.find_header text = []).
Proof.
  split.
  - intros i m1 m2 [g1 H1] Hfirst [g2 H2].
    assert (E : SirsiParser.find_header text = m1).
    { unfold SirsiParser.find_header.
      rewrite (search_first _ i text (m1, g1)); [reflexivity| |exact H1].
      intros j Hj.
      destruct (Re.match_here _ (skipn j text)) as [[m g]|] eqn:Ej;
        [|reflexivity].
      exfalso. apply (Hfirst j m Hj). now exists g. }
    split; [exact E|]. rewrite E. intros Habs.
    apply match_here_literals in H2.
    change (Spec.literals SirsiParser.HEADER_PATTERN) with 38 in H2.
    apply (f_equal (@length ascii)) in Habs. rewrite length_app in Habs. lia.
  - intros Hnone. unfold SirsiParser.find_header.
    rewrite search_none; [reflexivity|].
    intros j.
    destruct (Re.match_here _ (skipn j text)) as [[m g]|] eqn:Ej;
      [|reflexivity].
    exfalso. apply (Hnone j m). now exists g.
Qed.

Lemma C8_header_is_first_occurrence_witness :
  let h := Spec.sample
    "HOLD PICKUP LIST||Produced 'Monday, January 1'||Library: 'MAIN'||" in
  SirsiParser.find_header (h ++ h) = h.
Proof.
  intros h.
  destruct (C8_header_is_first_occurrence (h ++ h)) as [H _].
  apply (H 0 h h).
  - eexists. vm_compute. reflexivity.
  - intros j m Hj. lia.
  - eexists. vm_compute. reflexivity.
Defined.

(** C2: [sort_by_location_and_author order] returns, for every report, the
    report with the same header and the same entries rearranged (the key of
    an entry being its location rank, last name and first name) so that, for
    adjacent entries [e1], [e2], the location rank of [e1] is at most that of
    [e2] and, on equal ranks, (last name, first name) of [e1] is at most that
    of [e2]; an entry whose main location is listed in [order] stands before
    every entry whose main location is not; and the entries that have one
    same key keep the order they had. *)
Theorem C2_sort_by_location_and_author
        (order : list pystr) (r : SirsiReport.t) :
  exists r',
    SirsiReport.sort_by_location_and_author order r = inr r' /\
    SirsiReport.header r' = SirsiReport.header r /\
    Permutation (SirsiReport.entries r) (SirsiReport.entries r') /\
    (forall e, SirsiReport.key order e =
               inr (Spec.rank order e, fst (Spec.author e), snd (Spec.author e))) /\
    (forall i e1 e2,
       nth_error (SirsiReport.entries r') i = Some e1 ->
       nth_error (SirsiReport.entries r') (S i) = Some e2 ->
       Spec.rank order e1 <= Spec.rank order e2 /\
       (Spec.rank order e1 = Spec.rank order e2 ->
        Spec.pair_le (Spec.author e1) (Spec.author e2))) /\
    (forall i j e1 e2,
       nth_error (SirsiReport.entries r') i = Some e1 ->
       nth_error (SirsiReport.entries r') j = Some e2 ->
       In (Spec.main_loc e1) order -> ~ In (Spec.main_loc e2) order ->
       i < j) /\
    (forall k,
       filter (fun e => Spec.key_eqb (Spec.key_of order e) k)
              (SirsiReport.entries r') =
       filter (fun e => Spec.key_eqb (Spec.key_of order e) k)
              (SirsiReport.entries r)).
Proof.
  rewrite sort_report. eexists. split; [reflexivity|].
  cbn [SirsiReport.header SirsiReport.entries].
  pose proof (sort_k_sorted SirsiReport.key_ltb (Spec.key_of order)
                key_ltb_asym (SirsiReport.entries r)) as S.
  split; [reflexivity|]. split; [apply sort_k_perm|].
  split; [intros e; apply key_total|]. split; [|split].
  - intros i e1 e2 H1 H2. apply before_key.
    exact (Sorted_adjacent _ _ S i e1 e2 H1 H2).
  - intros i j e1 e2 H1 H2 In1 In2.
    apply rank_of_In in In1. rewrite rank_of_In in In2.
    destruct (Nat.lt_trichotomy i j) as [Hij|[Hij|Hij]]; [exact Hij| |].
    + subst j. rewrite H1 in H2. injection H2 as <-. contradiction.
    + pose proof (StronglySorted_apart _ _ (sorted_ranks _ _ S)
                    j i e2 e1 Hij H2 H1) as Hr.
      unfold Spec.rank in Hr. lia.
  - intros k.
    apply (sort_k_filter SirsiReport.key_ltb (Spec.key_of order)
             (fun a => Spec.key_eqb a k)).
    apply same_key_apart.
Qed.

(** C9: with an empty priority list every entry has the same location rank,
    0, and [sort_by_location_and_author] returns the same entries ordered by
    (last name, first name) ascending, the entries with one same pair of
    names keeping the order they had. *)
Theorem C9_empty_priority_list (r : SirsiReport.t) :
  exists r',
    SirsiReport.sort_by_location_and_author [] r = inr r' /\
    SirsiReport.header r' = SirsiReport.header r /\
    Permutation (SirsiReport.entries r) (SirsiReport.entries r') /\
    (forall e, SirsiReport.key [] e =
               inr (0, fst (Spec.author e), snd (Spec.author e))) /\
    (forall i e1 e2,
       nth_error (SirsiReport.entries r') i = Some e1 ->
       nth_error (SirsiReport.entries r') (S i) = Some e2 ->
       Spec.pair_le (Spec.author e1) (Spec.author e2)) /\
    (forall names,
       filter (fun e => Spec.author_eqb (Spec.author e) names)
              (SirsiReport.entries r') =
       filter (fun e => Spec.author_eqb (Spec.author e) names)
              (SirsiReport.entries r)).
Proof.
  rewrite sort_report. eexists. split; [reflexivity|].
  cbn [SirsiReport.header SirsiReport.entries].
  pose proof (sort_k_sorted SirsiReport.key_ltb (Spec.key_of [])
                key_ltb_asym (SirsiReport.entries r)) as S.
  split; [reflexivity|]. split; [apply sort_k_perm|]. split; [|split].
  - intros e. apply key_total.
  - intros i e1 e2 H1 H2.
    apply (before_key [] e1 e2 (Sorted_adjacent _ _ S i e1 e2 H1 H2)).
    reflexivity.
  - intros [l f].
    assert (E : forall es,
      filter (fun e => Spec.author_eqb (Spec.author e) (l, f)) es =
      filter (fun e => Spec.key_eqb (Spec.key_of [] e) (0, l, f)) es).
    { intros es. apply filter_ext. intros e. reflexivity. }
    rewrite !E.
    apply (sort_k_filter SirsiReport.key_ltb (Spec.key_of [])
             (fun a => Spec.key_eqb a (0, l, f))).
    apply same_key_apart.
Qed.

(** * Further properties of the code *)

(** X1: an author line that [AuthorLine] built is rendered to a text from
    which [AuthorLine] builds the same value again: last name, first name
    and birth year, present or absent. *)
Theorem X1_authorline_roundtrip (text : pystr) (a : AuthorLine.t) :
  AuthorLine.init text = inr a ->
  AuthorLine.init (AuthorLine.str a) = inr a.
Proof. intros H. apply author_str_init. exact (author_init_ok _ _ H). Qed.

Lemma X1_authorline_roundtrip_witness :
  let a := AuthorLine.mk ("Smith" : string) ("John" : string)
             (Some (list_ascii_of_string "1950")) in
  AuthorLine.init (AuthorLine.str a) = inr a.
Proof.
  intros a.
  apply (X1_authorline_roundtrip ("  Smith ,John,  1950-" : string) a).
  vm_compute. reflexivity.
Defined.

(** X2: the names that [AuthorLine] keeps have no white space at either end
    and no comma; the birth year, when there is one, has no comma and no
    white space in front. *)
Theorem X2_authorline_fields (text : pystr) (a : AuthorLine.t) :
  AuthorLine.init text = inr a ->
  Shape.trimmed (AuthorLine.last_name a) /\
  ~ In ","%char (AuthorLine.last_name a) /\
  Shape.trimmed (AuthorLine.first_name a) /\
  ~ In ","%char (AuthorLine.first_name a) /\
  (forall y, AuthorLine.birth_year a = Some y ->
             Shape.left_trimmed y /\ ~ In ","%char y).
Proof.
  intros H. destruct (author_init_ok _ _ H) as (A & B & C & D & E).
  repeat split; try assumption; try apply A; try apply C;
    intros; destruct (AuthorLine.birth_year a); try discriminate;
    match goal with Hy : Some _ = Some _ |- _ => injection Hy as <- end;
    apply E.
Qed.

Lemma X2_authorline_fields_witness :
  ~ In ","%char (list_ascii_of_string "Smith").
Proof.
  assert (H : AuthorLine.init ("  Smith ,John,  1950-" : string) =
              inr (AuthorLine.mk ("Smith" : string) ("John" : string)
                     (Some (list_ascii_of_string "1950"))))
    by (vm_compute; reflexivity).
  destruct (X2_authorline_fields _ _ H) as (_ & N & _). exact N.
Defined.

(** X3: white space around the fragment makes no difference to
    [AuthorLine] nor to [TitleStatement]: trimming the fragment first, as
    [SirsiEntry] does, gives the same value. *)
Theorem X3_fragments_need_no_trimming (text : pystr) :
  AuthorLine.init (strip text) = AuthorLine.init text /\
  TitleStatement.init (strip text) = TitleStatement.init text.
Proof. split; [apply author_init_strip|apply title_init_strip]. Qed.

(** X4: a title statement that [TitleStatement] built is rendered to a text
    from which [TitleStatement] builds the same value again; its title has
    no slash, and title and author have no white space at either end. *)
Theorem X4_titlestatement_roundtrip (text : pystr) (ts : TitleStatement.t) :
  TitleStatement.init text = inr ts ->
  TitleStatement.init (TitleStatement.str ts) = inr ts /\
  ~ In "/"%char (TitleStatement.title ts) /\
  Shape.trimmed (TitleStatement.title ts) /\
  Shape.trimmed (TitleStatement.author ts).
Proof.
  intros H. pose proof (title_init_ok _ _ H) as K.
  split; [now apply title_str_init|].
  destruct K as (A & B & C). repeat split; try assumption;
    try apply A; try apply C.
Qed.

Lemma X4_titlestatement_roundtrip_witness :
  let ts := TitleStatement.mk ("A Book" : string) ("J. Smith / ed." : string) in
  TitleStatement.init (TitleStatement.str ts) = inr ts.
Proof.
  intros ts.
  apply (X4_titlestatement_roundtrip (" A Book/ J. Smith / ed. " : string) ts).
  vm_compute. reflexivity.
Defined.

(** X5: in a copy line that [CopyLine] built, item id, type and location are
    non-empty and hold no white space; the main location holds no hyphen;
    the location is the main location alone when there is no sub-location,
    and main location, hyphen, sub-location otherwise. *)
Theorem X5_copyline_location (line : pystr) (c : CopyLine.t) :
  CopyLine.init line = inr c ->
  Shape.token (CopyLine.item_id c) /\ Shape.token (CopyLine.type c) /\
  Shape.token (CopyLine.location c) /\
  ~ In "-"%char (CopyLine.main_location c) /\
  CopyLine.location c =
    CopyLine.main_location c ++
    match CopyLine.sub_location c with
    | Some s => "-"%char :: s
    | None => []
    end.
Proof. apply copy_init_ok. Qed.

Lemma X5_copyline_location_witness :
  let c := CopyLine.mk 2 ("ABC123" : string) ("BOOK" : string)
             ("FIC-A-B" : string) ("FIC" : string)
             (Some (list_ascii_of_string "A-B")) in
  ~ In "-"%char (CopyLine.main_location c).
Proof.
  intros c.
  assert (H : CopyLine.init
                ("copy:2   item ID:ABC123   type:BOOK   location:FIC-A-B" : string)
              = inr c) by (vm_compute; reflexivity).
  destruct (X5_copyline_location _ _ H) as (_ & _ & _ & N & _). exact N.
Defined.

(** X6: a pickup line that [PickupLine] built is rendered to a line that
    [PickupLine] accepts and from which it builds the same value, whatever
    the lengths of the library text and of the date: there is always at
    least one space of padding.  The library text is non-empty and holds no
    double quote, the date is non-empty and holds no white space. *)
Theorem X6_pickupline_roundtrip (line : pystr) (p : PickupLine.t) :
  PickupLine.init line = inr p ->
  PickupLine.init (PickupLine.str p) = inr p /\
  Spec.quotable (PickupLine.pickup_library p) /\
  Shape.token (PickupLine.discharge_date p).
Proof.
  intros H. pose proof (pickup_init_ok _ _ H) as K.
  split; [now apply pickup_str_init|exact K].
Qed.

Lemma X6_pickupline_roundtrip_witness :
  let p := PickupLine.mk ("MAIN LIBRARY" : string) ("01/02/2024" : string) in
  PickupLine.init (PickupLine.str p) = inr p.
Proof.
  intros p.
  apply (X6_pickupline_roundtrip
           (("x Pickup library:" : string) ++ [DQ] ++ ("MAIN LIBRARY" : string) ++
            [DQ] ++ ("  Date of discharge:01/02/2024 y" : string)) p).
  vm_compute. reflexivity.
Defined.

(** X7: [sort_by_location order] returns, for every report, the report with
    the same header and the same entries rearranged so that the location
    rank never decreases from an entry to the next; an entry whose main
    location is listed stands before every entry whose main location is
    not; entries of one same rank, so all the entries with unlisted
    locations, keep the order they had. *)
Theorem X7_sort_by_location (order : list pystr) (r : SirsiReport.t) :
  exists r',
    SirsiReport.sort_by_location order r = inr r' /\
    SirsiReport.header r' = SirsiReport.header r /\
    Permutation (SirsiReport.entries r) (SirsiReport.entries r') /\
    (forall i e1 e2,
       nth_error (SirsiReport.entries r') i = Some e1 ->
       nth_error (SirsiReport.entries r') (S i) = Some e2 ->
       Spec.rank order e1 <= Spec.rank order e2) /\
    (forall i j e1 e2,
       nth_error (SirsiReport.entries r') i = Some e1 ->
       nth_error (SirsiReport.entries r') j = Some e2 ->
       In (Spec.main_loc e1) order -> ~ In (Spec.main_loc e2) order ->
       i < j) /\
    (forall k,
       filter (fun e => Spec.rank order e =? k) (SirsiReport.entries r') =
       filter (fun e => Spec.rank order e =? k) (SirsiReport.entries r)).
Proof.
  rewrite sort_report_loc. eexists. split; [reflexivity|].
  cbn [SirsiReport.header SirsiReport.entries].
  pose proof (sort_k_sorted Nat.ltb (Spec.rank order) ltb_asym
                (SirsiReport.entries r)) as S.
  assert (S' : Sorted (fun a b => Spec.rank order a <= Spec.rank order b)
                 (Spec.sort_k Nat.ltb (Spec.rank order) (SirsiReport.entries r))).
  { revert S. apply Sorted_weaken. intros a b H. now apply Nat.ltb_ge in H. }
  split; [reflexivity|]. split; [apply sort_k_perm|]. split; [|split].
  - intros i e1 e2 H1 H2. exact (Sorted_adjacent _ _ S' i e1 e2 H1 H2).
  - intros i j e1 e2 H1 H2 In1 In2.
    apply rank_of_In in In1. rewrite rank_of_In in In2.
    assert (SS : StronglySorted
                   (fun a b => Spec.rank order a <= Spec.rank order b)
                   (Spec.sort_k Nat.ltb (Spec.rank order) (SirsiReport.entries r))).
    { apply Sorted_StronglySorted; [|exact S']. intros a b c; lia. }
    destruct (Nat.lt_trichotomy i j) as [Hij|[Hij|Hij]]; [exact Hij| |].
    + subst j. rewrite H1 in H2. injection H2 as <-. contradiction.
    + pose proof (StronglySorted_apart _ _ SS j i e2 e1 Hij H2 H1) as Hr.
      unfold Spec.rank in Hr. lia.
  - intros k.
    apply (sort_k_filter Nat.ltb (Spec.rank order) (fun a => a =? k)).
    intros a b Ha Hb. apply Nat.eqb_eq in Ha, Hb. subst.
    apply Nat.ltb_irrefl.
Qed.

(** X8: a report that [sort_by_location_and_author order] returned is left
    as it is by a second [sort_by_location_and_author order] and by
    [sort_by_location order]. *)
Theorem X8_sorted_report_is_stable
        (order : list pystr) (r r1 : SirsiReport.t) :
  SirsiReport.sort_by_location_and_author order r = inr r1 ->
  SirsiReport.sort_by_location_and_author order r1 = inr r1 /\
  SirsiReport.sort_by_location order r1 = inr r1.
Proof.
  rewrite sort_report. intros [= <-].
  pose proof (sort_k_sorted SirsiReport.key_ltb (Spec.key_of order)
                key_ltb_asym (SirsiReport.entries r)) as S.
  rewrite sort_report, sort_report_loc.
  cbn [SirsiReport.header SirsiReport.entries].
  rewrite (sort_k_sorted_id _ _ _ S).
  now rewrite (sort_k_sorted_id _ _ _ (sorted_by_key_by_rank _ _ S)).
Qed.

Lemma X8_sorted_report_is_stable_witness :
  let r1 := SirsiReport.mk []
              [Shape.sample_entry "FIC" "Smith"; Shape.sample_entry "NF" "Adams"] in
  SirsiReport.sort_by_location [list_ascii_of_string "FIC"] r1 = inr r1.
Proof.
  intros r1.
  apply (X8_sorted_report_is_stable [list_ascii_of_string "FIC"]
           (SirsiReport.mk []
              [Shape.sample_entry "NF" "Adams"; Shape.sample_entry "FIC" "Smith"])
           r1).
  vm_compute. reflexivity.
Defined.

(** X9: on a text none of whose lines holds the title "HOLD PICKUP LIST",
    [remove_duplicate_headers] only normalises the line endings; it gives
    the text back when the text has no carriage return. *)
Theorem X9_no_title_only_line_endings (text : pystr) :
  Forall (fun l => Shape.titled l = false) (Shape.lines_of text) ->
  Main.remove_duplicate_headers text = Shape.normalized text /\
  (~ In CR text -> Main.remove_duplicate_headers text = text).
Proof.
  intros H. destruct (lines_of_spec text) as (J & _).
  assert (E : Main.remove_duplicate_headers text = Shape.normalized text).
  { rewrite remove_duplicate_headers_eq.
    now rewrite (dedup_untitled false _ H). }
  split; [exact E|]. intros N. rewrite E. now apply normalized_id.
Qed.

Lemma X9_no_title_only_line_endings_witness :
  Main.remove_duplicate_headers (Spec.sample "KEY|  Smith, John||KEY|  Adams") =
  Spec.sample "KEY|  Smith, John||KEY|  Adams".
Proof.
  apply X9_no_title_only_line_endings.
  - vm_compute. repeat constructor.
  - vm_compute. intuition discriminate.
Defined.

(** X10: when the first line with the title is [t], after the lines [pre]
    and before the lines [rest], [remove_duplicate_headers] keeps [pre], [t]
    and the five lines after [t] (fewer at the end of the text), and from
    what follows those it drops every line with the title together with the
    five lines after it, whatever they hold; no line with the title comes
    out after the six kept ones. *)
Theorem X10_first_header_kept_later_dropped
        (text : pystr) (pre : list pystr) (t : pystr) (rest : list pystr) :
  Shape.lines_of text = pre ++ t :: rest ->
  Forall (fun l => Shape.titled l = false) pre ->
  Shape.titled t = true ->
  Main.remove_duplicate_headers text =
    Py.join [LF] (pre ++ firstn 6 (t :: rest) ++
                  Main.dedup true 0 (skipn 5 rest)) /\
  Forall (fun l => Shape.titled l = false)
         (Main.dedup true 0 (skipn 5 rest)) /\
  (forall mid t' rest',
     Forall (fun l => Shape.titled l = false) mid ->
     Shape.titled t' = true ->
     Main.dedup true 0 (mid ++ t' :: rest') =
     mid ++ Main.dedup true 0 (skipn 5 rest')).
Proof.
  intros E Hpre Ht. split; [|split].
  - rewrite remove_duplicate_headers_eq, E.
    now rewrite (dedup_shape pre t rest Hpre Ht).
  - apply dedup_seen_untitled.
  - intros mid t' rest' Hmid Ht'.
    rewrite dedup_app_untitled by exact Hmid.
    now rewrite dedup_later_title.
Qed.

Lemma X10_first_header_kept_later_dropped_witness :
  Main.remove_duplicate_headers
    (Spec.sample "a|HOLD PICKUP LIST|1|2|3|4|5|b|HOLD PICKUP LIST|1|2|3|4|5|c") =
  Spec.sample "a|HOLD PICKUP LIST|1|2|3|4|5|b|c".
Proof.
  destruct (X10_first_header_kept_later_dropped
    (Spec.sample "a|HOLD PICKUP LIST|1|2|3|4|5|b|HOLD PICKUP LIST|1|2|3|4|5|c")
    [list_ascii_of_string "a"] (list_ascii_of_string "HOLD PICKUP LIST")
    (map list_ascii_of_string
       ["1"; "2"; "3"; "4"; "5"; "b"; "HOLD PICKUP LIST";
        "1"; "2"; "3"; "4"; "5"; "c"]%string)) as (E & _).
  - vm_compute. reflexivity.
  - repeat constructor.
  - vm_compute. reflexivity.
  - rewrite E. vm_compute. reflexivity.
Defined.

(** X11: the text that [remove_duplicate_headers] returns holds no carriage
    return, and its lines are lines of the normalised input, in their
    order: the function leaves lines out, it adds and moves none. *)
Theorem X11_only_leaves_lines_out (text : pystr) :
  ~ In CR (Main.remove_duplicate_headers text) /\
  Shape.subseq (split [LF] (Main.remove_duplicate_headers text))
               (Shape.lines_of text).
Proof.
  destruct (rdh_lines text) as (_ & S & _ & _ & _ & E & N).
  split; [exact N|]. rewrite E. exact S.
Qed.

(** X12: [remove_duplicate_headers] is idempotent: a second pass returns
    the text unchanged. *)
Theorem X12_remove_duplicate_headers_idempotent (text : pystr) :
  Main.remove_duplicate_headers (Main.remove_duplicate_headers text) =
  Main.remove_duplicate_headers text.
Proof.
  destruct (rdh_lines text) as (J & _ & _ & _ & _ & E & N).
  rewrite (remove_duplicate_headers_eq (Main.remove_duplicate_headers text)).
  unfold Shape.lines_of. rewrite (normalized_id _ N), E.
  now rewrite dedup_idem.
Qed.

(** X13: an entry that [SirsiEntry] built, and whose copy line fits its
    columns (copies below 10000, item id under 18 characters, type under 12),
    is rendered to a block from which [SirsiEntry] builds the same entry:
    key, author line, title statement, copy line and pickup line. *)
Theorem X13_entry_roundtrip (block : pystr) (e : SirsiEntry.t) :
  SirsiEntry.init block = inr e ->
  (CopyLine.copies (SirsiEntry.copy_line e) < 10000)%N ->
  length (CopyLine.item_id (SirsiEntry.copy_line e)) < 18 ->
  length (CopyLine.type (SirsiEntry.copy_line e)) < 12 ->
  SirsiEntry.init (SirsiEntry.str e) = inr e.
Proof.
  intros H Hn Hi Ht. apply (entry_str_init block e H).
  repeat split; assumption.
Qed.

Lemma X13_entry_roundtrip_witness :
  let block := Spec.sample
    "  KEY ONE |Smith , John, 1950-| A Book/J. Smith|x copy:07  item ID:31  type:BOOK location:FIC-A y|Pickup library:'MAIN' Date of discharge:01/02/2024|more" in
  exists e,
    SirsiEntry.init block = inr e /\
    SirsiEntry.init (SirsiEntry.str e) = inr e.
Proof.
  intros block. eexists. split; [vm_compute; reflexivity|].
  apply (X13_entry_roundtrip block).
  - vm_compute. reflexivity.
  - reflexivity.
  - simpl. lia.
  - simpl. lia.
Defined.

(** X14: in an entry that [SirsiEntry] built the key is not empty and has
    no white space at either end, and the rendered entry splits into
    exactly the five rendered lines: key, author line, title statement,
    copy line, pickup line; no field holds a line boundary. *)
Theorem X14_entry_renders_five_lines (block : pystr) (e : SirsiEntry.t) :
  SirsiEntry.init block = inr e ->
  SirsiEntry.alpha_key e <> [] /\
  Shape.trimmed (SirsiEntry.alpha_key e) /\
  splitlines (SirsiEntry.str e) =
  [SirsiEntry.alpha_key e;
   AuthorLine.str (SirsiEntry.author_line e);
   TitleStatement.str (SirsiEntry.title_statement e);
   CopyLine.str (SirsiEntry.copy_line e);
   PickupLine.str (SirsiEntry.pickup_line e)] /\
  strip (SirsiEntry.str e) = SirsiEntry.str e.
Proof.
  intros H. destruct (entry_init_ok _ _ H) as (Ok & _).
  pose proof (entry_str_lines e Ok) as L.
  assert (N : strip (SirsiEntry.str e) <> []) by now apply entry_str_nonblank.
  destruct Ok as ((Kn & Kt & _) & _).
  assert (T : strip (SirsiEntry.str e) = SirsiEntry.str e).
  { apply strip_id. split.
    - unfold SirsiEntry.str. destruct (SirsiEntry.alpha_key e);
        [congruence|exact (proj1 Kt)].
    - destruct (entry_init_ok _ _ H) as ((_ & _ & _ & _ & (Po & _)) & _).
      unfold SirsiEntry.str, PickupLine.str, PickupLine.right.
      rewrite !app_assoc. apply stops_rev_token. exact (proj2 Po). }
  rewrite T in L. repeat split; try assumption; apply Kt.
Qed.

Lemma X14_entry_renders_five_lines_witness :
  exists e,
    SirsiEntry.init (Spec.sample
      "KEY|Smith, John|A Book|copy:1 item ID:31 type:BOOK location:FIC|Pickup library:'MAIN' Date of discharge:01/02/2024")
      = inr e /\
    length (splitlines (SirsiEntry.str e)) = 5.
Proof.
  eexists. split; [vm_compute; reflexivity|].
  match goal with |- length (splitlines (SirsiEntry.str ?e)) = 5 =>
    destruct (X14_entry_renders_five_lines
      (Spec.sample
         "KEY|Smith, John|A Book|copy:1 item ID:31 type:BOOK location:FIC|Pickup library:'MAIN' Date of discharge:01/02/2024")
      e ltac:(vm_compute; reflexivity)) as (_ & _ & L & _)
  end.
  rewrite L. reflexivity.
Defined.

(** X15: a report with an empty header whose entries were built by
    [SirsiEntry] and fit their columns is rendered to a text that
    [SirsiParser.parse] parses into the same entries, in the same order. *)
Theorem X15_report_entries_roundtrip (es : list SirsiEntry.t) :
  Forall Shape.parsed_and_fits es ->
  exists r,
    SirsiParser.parse (SirsiReport.str (SirsiReport.mk [] es)) = inr r /\
    SirsiReport.entries r = es.
Proof.
  intros F. rewrite parse_eq. eexists. split; [reflexivity|].
  cbn [SirsiReport.entries]. unfold SirsiReport.str.
  cbn [SirsiReport.header SirsiReport.entries app].
  rewrite blocks_of_rendered.
  - now apply survivors_of_rendered.
  - revert F. apply Forall_impl. intros e [[block Hb] _].
    exact (proj1 (entry_init_ok _ _ Hb)).
Qed.

Lemma X15_report_entries_roundtrip_witness :
  let block := Spec.sample
    "KEY|Smith, John|A Book|copy:1 item ID:31 type:BOOK location:FIC|Pickup library:'MAIN' Date of discharge:01/02/2024" in
  exists e r,
    SirsiEntry.init block = inr e /\
    SirsiParser.parse (SirsiReport.str (SirsiReport.mk [] [e; e])) = inr r /\
    SirsiReport.entries r = [e; e].
Proof.
  intros block.
  assert (H : exists e, SirsiEntry.init block = inr e /\
                        Shape.copy_fits (SirsiEntry.copy_line e)).
  { eexists. split; [vm_compute; reflexivity|].
    split; [reflexivity|split; simpl; lia]. }
  destruct H as (e & He & Hf).
  assert (P : Shape.parsed_and_fits e)
    by (split; [now exists block|exact Hf]).
  destruct (X15_report_entries_roundtrip [e; e]
              (Forall_cons _ P (Forall_cons _ P (Forall_nil _))))
    as (r & Hr & Er).
  exists e, r. repeat split; assumption.
Defined.

(** X16: [SirsiReport.__str__] with [__init__] and [add_entry]: a report
    built without entries, or with an empty list of them, renders as its
    header alone; adding an entry appends its rendering, after a blank-line
    separator when the report already had an entry. *)
Theorem X16_report_str_grows (header : pystr) (r : SirsiReport.t)
        (e : SirsiEntry.t) :
  SirsiReport.str (SirsiReport.init header None) = header /\
  SirsiReport.str (SirsiReport.init header (Some [])) = header /\
  SirsiReport.str (SirsiReport.add_entry r e) =
    SirsiReport.str r ++
    match SirsiReport.entries r with [] => [] | _ => [LF; LF] end ++
    SirsiEntry.str e.
Proof.
  split; [|split].
  - unfold SirsiReport.str. simpl. apply app_nil_r.
  - unfold SirsiReport.str. simpl. apply app_nil_r.
  - unfold SirsiReport.str, SirsiReport.add_entry.
    cbn [SirsiReport.header SirsiReport.entries].
    rewrite map_app. cbn [map]. rewrite join_snoc, <- !app_assoc.
    now destruct (SirsiReport.entries r).
Qed.

(** X17: the script never raises between reading and writing: for every
    input text and every [--sort_order], given or not, it produces a text,
    which is the header captured in the cleaned text followed by the
    rendered entries that the parser accepted, rearranged by the sort and
    joined by blank lines; without the option the order list is empty. *)
Theorem X17_process_total (text : pystr) (sort_order : option (list pystr)) :
  exists r r',
    SirsiParser.parse (Main.remove_duplicate_headers text) = inr r /\
    SirsiReport.sort_by_location_and_author
      (match sort_order with Some l => l | None => [] end) r = inr r' /\
    Permutation (SirsiReport.entries r) (SirsiReport.entries r') /\
    Main.process text sort_order =
      inr (SirsiParser.find_header (Main.remove_duplicate_headers text) ++
           Py.join [LF; LF] (map SirsiEntry.str (SirsiReport.entries r'))).
Proof.
  set (order := match sort_order with Some l => l | None => [] end).
  assert (E : match sort_order with Some (x :: l) => x :: l | _ => [] end = order).
  { unfold order. destruct sort_order as [[|x l]|]; reflexivity. }
  set (cleaned := Main.remove_duplicate_headers text).
  exists (SirsiReport.mk (SirsiParser.find_header cleaned)
            (flat_map Spec.survivors (SirsiParser.blocks cleaned))).
  exists (SirsiReport.mk (SirsiParser.find_header cleaned)
            (Spec.sort_k SirsiReport.key_ltb (Spec.key_of order)
               (flat_map Spec.survivors (SirsiParser.blocks cleaned)))).
  split; [apply parse_eq|]. split; [apply sort_report|].
  split; [apply sort_k_perm|].
  unfold Main.process. cbv zeta. rewrite E. fold cleaned.
  rewrite parse_eq. cbn [bind]. rewrite sort_report. reflexivity.
Qed.

(** X18: [SirsiEntry.__init__] reads the first five lines of the trimmed
    block and nothing else: two blocks of five lines or more whose first
    five lines are the same give the same result, the same entry or the
    same error. *)
Theorem X18_entry_reads_five_lines (block block' : pystr) :
  firstn 5 (splitlines (strip block)) = firstn 5 (splitlines (strip block')) ->
  5 <= length (splitlines (strip block)) ->
  5 <= length (splitlines (strip block')) ->
  SirsiEntry.init block = SirsiEntry.init block'.
Proof. apply entry_init_lines. Qed.

Lemma X18_entry_reads_five_lines_witness :
  let block := Spec.sample
    "KEY|Smith, John|A Book|copy:1 item ID:31 type:BOOK location:FIC|Pickup library:'MAIN' Date of discharge:01/02/2024" in
  let block' := Spec.sample
    "KEY|Smith, John|A Book|copy:1 item ID:31 type:BOOK location:FIC|Pickup library:'MAIN' Date of discharge:01/02/2024|a sixth line|copy:x" in
  SirsiEntry.init block = SirsiEntry.init block'.
Proof.
  intros block block'.
  apply (X18_entry_reads_five_lines block block').
  - vm_compute. reflexivity.
  - vm_compute. lia.
  - vm_compute. lia.
Defined.

(** X19: [CopyLine.__init__] and [PickupLine.__init__] on a line that does
    not hold the first label of their pattern, [copy:] and
    [Pickup library:]: the pattern is found nowhere in the line, and the
    constructor raises the [ValueError] whose message is the fixed text
    followed by the whole line, unchanged. *)
Theorem X19_missing_label_is_refused (line : pystr) :
  (contains ("copy:" : string) line = false ->
   CopyLine.init line =
     inl (ValueError (("Cannot parse copy line: " : string) ++ line))) /\
  (contains ("Pickup library:" : string) line = false ->
   PickupLine.init line =
     inl (ValueError (("Cannot parse pickup line: " : string) ++ line))).
Proof.
  split; [apply copyline_without_label|apply pickupline_without_label].
Qed.

Lemma X19_missing_label_is_refused_witness :
  let line := Spec.sample "  Copy:1 item ID:31 type:BOOK location:FIC" in
  CopyLine.init line =
    inl (ValueError (("Cannot parse copy line: " : string) ++ line)) /\
  PickupLine.init line =
    inl (ValueError (("Cannot parse pickup line: " : string) ++ line)).
Proof.
  intros line.
  destruct (X19_missing_label_is_refused line) as [C P].
  split; [apply C|apply P]; vm_compute; reflexivity.
Defined.

(** X20: which error [SirsiEntry.__init__] raises on a block of five lines
    or more: when the fourth line does not hold [copy:], the copy-line
    error with that line as it stands (not trimmed), whatever the other
    lines are; when the fourth line is accepted and the fifth does not hold
    [Pickup library:], the pickup-line error with the fifth line.  The
    author and title lines never raise. *)
Theorem X20_entry_error_names_the_line (block : pystr) :
  let lines := splitlines (strip block) in
  5 <= length lines ->
  (contains ("copy:" : string) (nth 3 lines []) = false ->
   SirsiEntry.init block =
     inl (ValueError (("Cannot parse copy line: " : string) ++
                      nth 3 lines []))) /\
  (forall c, CopyLine.init (nth 3 lines []) = inr c ->
   contains ("Pickup library:" : string) (nth 4 lines []) = false ->
   SirsiEntry.init block =
     inl (ValueError (("Cannot parse pickup line: " : string) ++
                      nth 4 lines []))).
Proof.
  cbn zeta. intros L.
  destruct (entry_init block) as [[L' _]|[_ (a & ts & _ & _ & H)]]; [lia|].
  rewrite H. split.
  - intros Hc. now rewrite (copyline_without_label _ Hc).
  - intros c Hc Hp. rewrite Hc. cbn [bind].
    now rewrite (pickupline_without_label _ Hp).
Qed.

Lemma X20_entry_error_names_the_line_witness :
  SirsiEntry.init (Spec.sample "KEY|Smith, John|A Book| no label here |p")
    = inl (ValueError (Spec.sample "Cannot parse copy line:  no label here ")) /\
  SirsiEntry.init (Spec.sample
    "KEY|Smith, John|A Book|copy:1 item ID:31 type:BOOK location:FIC| Pickup Library:'MAIN'")
    = inl (ValueError
        (Spec.sample "Cannot parse pickup line:  Pickup Library:'MAIN'")).
Proof.
  split.
  - apply (X20_entry_error_names_the_line
             (Spec.sample "KEY|Smith, John|A Book| no label here |p")).
    + vm_compute. lia.
    + vm_compute. reflexivity.
  - destruct (X20_entry_error_names_the_line
        (Spec.sample
          "KEY|Smith, John|A Book|copy:1 item ID:31 type:BOOK location:FIC| Pickup Library:'MAIN'")
        ltac:(vm_compute; lia)) as [_ P].
    apply (P (CopyLine.mk 1 ("31" : string) ("BOOK" : string)
                ("FIC" : string) ("FIC" : string) None));
      vm_compute; reflexivity.
Defined.

(** X21: [SirsiParser.parse] on a text that starts with a header of the
    expected form (the title line, the [Produced] line and the [Library:]
    line, each quoted text non-empty and without a quote) and goes on with
    a character that is not white space: parsing succeeds and the header of
    the report is that header text in full, from the white space in front
    of the title to the white space after the last quote. *)
Theorem X21_parse_captures_header (w0 w1 w2 p w3 w4 l w5 rest : pystr) :
  Spec.blank w0 -> Spec.blank w1 -> In LF w1 ->
  Spec.blank w2 -> 1 <= length w2 -> Spec.quotable p ->
  Spec.blank w3 -> In LF w3 ->
  Spec.blank w4 -> 1 <= length w4 -> Spec.quotable l ->
  Spec.blank w5 -> Spec.stops isspace rest ->
  exists r,
    SirsiParser.parse (Spec.header_text w0 w1 w2 p w3 w4 l w5 ++ rest) = inr r /\
    SirsiReport.header r = Spec.header_text w0 w1 w2 p w3 w4 l w5.
Proof.
  intros. eexists. split; [apply parse_eq|].
  cbn [SirsiReport.header]. now apply find_header_text.
Qed.

Lemma X21_parse_captures_header_witness :
  exists r,
    SirsiParser.parse (Spec.sample
      "  HOLD PICKUP LIST||Produced 'Monday'|Library: 'MAIN'||KEY|Smith, John")
      = inr r /\
    SirsiReport.header r = Spec.sample
      "  HOLD PICKUP LIST||Produced 'Monday'|Library: 'MAIN'||".
Proof.
  apply (X21_parse_captures_header
           (Spec.sample "  ") (Spec.sample "||") (Spec.sample " ")
           (Spec.sample "Monday") (Spec.sample "|") (Spec.sample " ")
           (Spec.sample "MAIN") (Spec.sample "||")
           (Spec.sample "KEY|Smith, John"));
    try (vm_compute; reflexivity); try (vm_compute; lia);
    try (vm_compute; split; [reflexivity|lia]);
    try (vm_compute; auto).
Defined.

(** X22: [sort_by_location] followed by [sort_by_location_and_author] with
    the same priority list gives the report that
    [sort_by_location_and_author] gives alone: the first sort is stable and
    its key is the first component of the key of the second. *)
Theorem X22_location_sort_is_absorbed (order : list pystr)
        (r : SirsiReport.t) :
  bind (SirsiReport.sort_by_location order r)
       (SirsiReport.sort_by_location_and_author order) =
  SirsiReport.sort_by_location_and_author order r.
Proof.
  rewrite sort_report_loc. cbn [bind]. rewrite !sort_report.
  cbn [SirsiReport.header SirsiReport.entries]. do 2 f_equal.
  apply sort_k_after_coarser.
  - apply key_ltb_asym.
  - apply key_ltb_trans.
  - intros x y. apply rank_below_key.
Qed.
